(** * Minesweeper: the board engine of [minesweeper.py]

    A shallow embedding of the [Board] class (hazard placement, adjacency
    counts, the recursive [dig]) and of the [play] loop, followed by the
    properties of the board engine. *)

From stdpp Require Import base tactics option list gmap sets fin_sets.
From stdpp Require Import strings pretty.
From Stdlib Require Import ZArith Lia.

#[local] Set Warnings "-clear-no-such-hyp".

Local Open Scope Z_scope.

(** ** Python values and control effects *)

(** A board cell holds [None] (fresh grid), the one-character string of a
    star (a bomb), or an integer (the number of neighbouring bombs). *)
Inductive Cell : Type :=
| CNone
| Bomb
| Num (n : Z).

#[global] Instance Cell_eq_dec : EqDecision Cell.
Proof. solve_decision. Defined.

(** The exceptions the modelled code can raise. *)
Inductive PyExn : Type :=
| IndexError
| TypeError
| ValueError.

#[global] Instance PyExn_eq_dec : EqDecision PyExn.
Proof. solve_decision. Defined.

(** Outcome of running a piece of code: a value, a raised exception, or
    [OutOfFuel]: the recursion depth is used up (the [RecursionError] of
    the interpreter), or the listed random draws are (the loop is still
    running). *)
Inductive result (A : Type) : Type :=
| Ret (a : A)
| Raise (e : PyExn)
| OutOfFuel.

Arguments Ret {A} a.
Arguments Raise {A} e.
Arguments OutOfFuel {A}.

#[global] Instance result_eq_dec {A : Type} `{EqDecision A} : EqDecision (result A).
Proof. solve_decision. Defined.

#[global] Instance result_ret : MRet result := λ A a, Ret a.

#[global] Instance result_bind : MBind result := λ A B k m,
  match m with
  | Ret a => k a
  | Raise e => Raise e
  | OutOfFuel => OutOfFuel
  end.

(** A [for] loop over [xs] whose body may raise; [a] is the loop state. *)
Fixpoint foldM {A X : Type} (body : A → X → result A) (xs : list X) (a : A)
  : result A :=
  match xs with
  | [] => Ret a
  | x :: xs' => a' ← body a x ; foldM body xs' a'
  end.

(** A [for] loop whose body mutates an object [s]: the mutation survives an
    exception, which ends the loop. *)
Fixpoint for_state {S X : Type} (body : X → S → S * result unit)
    (xs : list X) (s : S) : S * result unit :=
  match xs with
  | [] => (s, Ret tt)
  | x :: xs' =>
      match body x s with
      | (s', Ret _) => for_state body xs' s'
      | (s', Raise e) => (s', Raise e)
      | (s', OutOfFuel) => (s', OutOfFuel)
      end
  end.

(** [range(lo, hi)]. *)
Definition py_range (lo hi : Z) : list Z := seqZ lo (hi - lo).

(** Python list indexing: [-len <= i < 0] counts from the end, anything
    outside [-len, len) raises [IndexError]. *)
Definition py_norm (len : nat) (i : Z) : option nat :=
  if bool_decide (0 ≤ i < Z.of_nat len) then Some (Z.to_nat i)
  else if bool_decide (- Z.of_nat len ≤ i < 0) then Some (Z.to_nat (Z.of_nat len + i))
  else None.

Definition py_index {A : Type} (l : list A) (i : Z) : result A :=
  match py_norm (length l) i with
  | Some k => match l !! k with Some x => Ret x | None => Raise IndexError end
  | None => Raise IndexError
  end.

Definition py_setitem {A : Type} (l : list A) (i : Z) (v : A) : result (list A) :=
  match py_norm (length l) i with
  | Some k => Ret (<[k:=v]> l)
  | None => Raise IndexError
  end.

(** ** The board *)

Abbreviation Grid := (list (list Cell)).

(** [board[row][col]] *)
Definition cell_at (g : Grid) (row col : Z) : result Cell :=
  r ← py_index g row ; py_index r col.

(** [board[row][col] = v] *)
Definition set_cell (g : Grid) (row col : Z) (v : Cell) : result Grid :=
  r ← py_index g row ;
  r' ← py_setitem r col v ;
  py_setitem g row r'.

(** The test that a cell equals the star string. *)
Definition is_bomb (v : Cell) : bool :=
  match v with Bomb => true | _ => false end.

Record Board : Type := mkBoard {
  dimension_size : Z;
  num_bombs : Z;
  board : Grid;
  dug : gset (Z * Z)
}.

(** [self.dug.add(rc)] *)
Definition dug_add (self : Board) (rc : Z * Z) : Board :=
  {| dimension_size := dimension_size self;
     num_bombs := num_bombs self;
     board := board self;
     dug := {[ rc ]} ∪ dug self |}.

(** The two [range]s shared by [get_num_neighboring_bombs] and [dig]. *)
Definition near (dim x : Z) : list Z :=
  py_range (Z.max 0 (x - 1)) (Z.min (dim - 1) (x + 1) + 1).

(** *** [Board.make_new_board]

    [random.randint] is an oracle: [draws] lists the values it returns, in
    order.  [randint(0, -1)] raises [ValueError]. *)
Fixpoint plant_bombs (dim nb : Z) (draws : list Z) (g : Grid)
    (bombs_planted : Z) : result Grid :=
  if bombs_planted <? nb then
    if dim ^ 2 - 1 <? 0 then Raise ValueError
    else
      match draws with
      | [] => OutOfFuel
      | loc :: draws' =>
          let row := loc `div` dim in
          let col := loc `mod` dim in
          v ← cell_at g row col ;
          if is_bomb v then plant_bombs dim nb draws' g bombs_planted
          else
            g' ← set_cell g row col Bomb ;
            plant_bombs dim nb draws' g' (bombs_planted + 1)
      end
  else Ret g.

Definition fresh_grid (dim : Z) : Grid :=
  map (λ _, map (λ _, CNone) (py_range 0 dim)) (py_range 0 dim).

Definition make_new_board (dim nb : Z) (draws : list Z) : result Grid :=
  plant_bombs dim nb draws (fresh_grid dim) 0.

(** *** [Board.get_num_neighboring_bombs] *)
Definition get_num_neighboring_bombs (dim : Z) (g : Grid) (row col : Z)
  : result Z :=
  foldM (λ num r,
    foldM (λ num c,
      if bool_decide (r = row) && bool_decide (c = col) then Ret num
      else
        v ← cell_at g r c ;
        if is_bomb v then Ret (num + 1) else Ret num)
      (near dim col) num)
    (near dim row) 0.

(** *** [Board.assign_values_to_board] (updates the grid in place) *)
Definition assign_values_to_board (dim : Z) (g : Grid) : result Grid :=
  foldM (λ g r,
    foldM (λ g c,
      v ← cell_at g r c ;
      if is_bomb v then Ret g
      else
        n ← get_num_neighboring_bombs dim g r c ;
        set_cell g r c (Num n))
      (py_range 0 dim) g)
    (py_range 0 dim) g.

(** *** [Board.__init__] *)
Definition Board_init (dim nb : Z) (draws : list Z) : result Board :=
  g ← make_new_board dim nb draws ;
  g' ← assign_values_to_board dim g ;
  Ret {| dimension_size := dim; num_bombs := nb; board := g'; dug := ∅ |}.

(** *** [Board.dig]

    [fuel] bounds the recursion depth; running out of it is [OutOfFuel].
    With [fuel] the depth the interpreter still allows, that is the
    [RecursionError] of a call beyond it: the cell of that call is not
    dug, what was dug before stays dug. *)
Fixpoint dig (fuel : nat) (self : Board) (row col : Z) : Board * result bool :=
  match fuel with
  | O => (self, OutOfFuel)
  | S fuel' =>
      let self := dug_add self (row, col) in
      match cell_at (board self) row col with
      | Raise e => (self, Raise e)
      | OutOfFuel => (self, OutOfFuel)
      | Ret Bomb => (self, Ret false)
      | Ret CNone => (self, Raise TypeError)
      | Ret (Num n) =>
          if 0 <? n then (self, Ret true)
          else
            match
              for_state (λ r self,
                for_state (λ c self,
                  if bool_decide ((r, c) ∈ dug self) then (self, Ret tt)
                  else
                    match dig fuel' self r c with
                    | (self', Ret _) => (self', Ret tt)
                    | (self', Raise e) => (self', Raise e)
                    | (self', OutOfFuel) => (self', OutOfFuel)
                    end)
                  (near (dimension_size self) col) self)
                (near (dimension_size self) row) self
            with
            | (self', Ret _) => (self', Ret true)
            | (self', Raise e) => (self', Raise e)
            | (self', OutOfFuel) => (self', OutOfFuel)
            end
      end
  end.

(** The cells of the grid, and the number of them not dug yet. *)
Definition grid_cells (dim : Z) : list (Z * Z) :=
  r ← py_range 0 dim; c ← py_range 0 dim; [(r, c)].

Definition grid (dim : Z) : gset (Z * Z) := list_to_set (grid_cells dim).

Definition undug (self : Board) : nat :=
  size (grid (dimension_size self) ∖ dug self).

(** *** [Board.__str__]

    The text [print(board)] shows.  The grid of what the player may see is
    built first, cell by cell in row order; then the widths of the columns,
    the row of column indices, the rows, and the two rules of dashes. *)

(** [str(x)] for what a cell holds. *)
Definition py_str (v : Cell) : string :=
  match v with
  | CNone => "None"
  | Bomb => "*"
  | Num n => pretty n
  end.

(** The line feed. *)
Definition nl : string := String (Ascii.ascii_of_nat 10) EmptyString.

(** [s * n] for a string [s]: nothing when [n] is not positive. *)
Definition py_repeat (s : string) (n : Z) : string :=
  String.concat "" (replicate (Z.to_nat n) s).

(** ['%-ws' % x], given [str(x)]: padded with spaces on the right up to
    [w] characters, never cut. *)
Definition ljust (w : nat) (s : string) : string :=
  s +:+ py_repeat " " (Z.of_nat w - Z.of_nat (String.length s)).

(** [max(xs, key=len)]: the first of the longest; [ValueError] when [xs]
    is empty. *)
Definition py_max_by_len (xs : list string) : result string :=
  match xs with
  | [] => Raise ValueError
  | x :: xs' =>
      Ret (fold_left (λ best y,
             if (String.length best <? String.length y)%nat then y else best)
             xs' x)
  end.

(** [enumerate(xs)] *)
Definition enumerate {A : Type} (xs : list A) : list (Z * A) :=
  imap (λ i x, (Z.of_nat i, x)) xs.

(** One entry of [visible_board]. *)
Definition visible_cell (self : Board) (row col : Z) : result string :=
  if bool_decide ((row, col) ∈ dug self) then
    v ← cell_at (board self) row col; Ret (py_str v)
  else Ret " ".

Definition visible_board (self : Board) : result (list (list string)) :=
  mapM (λ row,
      mapM (λ col, visible_cell self row col)
           (py_range 0 (dimension_size self)))
    (py_range 0 (dimension_size self)).

(** The loop that fills [widths]. *)
Definition column_widths (dim : Z) (visible : list (list string))
  : result (list nat) :=
  mapM (λ idx,
      columns ← mapM (λ x : list string, py_index x idx) visible;
      longest ← py_max_by_len columns;
      Ret (String.length longest))
    (py_range 0 dim).

(** The loops that fill [cells]: each entry padded to the width of its
    column. *)
Definition format_cells (widths : list nat) (row : list string)
  : result (list string) :=
  mapM (λ ic : Z * string,
      w ← py_index widths ic.1; Ret (ljust w ic.2))
    (enumerate row).

(** What [__str__] gives: the text, or [ZeroDivisionError], which the
    division by the dimension raises and [PyExn] does not list. *)
Inductive Shown : Type :=
| Text (s : string)
| ZeroDivisionError.

(** [int(len(string_rep) / dimension_size)] divides as floats and cuts the
    fraction; on lengths a string can have that is the integer quotient
    rounded towards zero. *)
Definition Board_str (self : Board) : result Shown :=
  visible ← visible_board self;
  widths ← column_widths (dimension_size self) visible;
  cells ← format_cells widths (pretty <$> py_range 0 (dimension_size self));
  let indices_row := "   " +:+ String.concat "  " cells +:+ "  " +:+ nl in
  string_rep ← foldM (λ string_rep (ir : Z * list string),
      cells ← format_cells widths ir.2;
      Ret (string_rep +:+ pretty ir.1 +:+ " |"
           +:+ String.concat " |" cells +:+ " |" +:+ nl))
    (enumerate visible) "";
  if bool_decide (dimension_size self = 0) then Ret ZeroDivisionError
  else
    let str_len := Z.of_nat (String.length string_rep) `quot` dimension_size self in
    Ret (Text (indices_row +:+ py_repeat "-" str_len +:+ nl
               +:+ string_rep +:+ py_repeat "-" str_len)).

(** *** [play]

    [inputs] lists the coordinates the player types, and [depth] is the
    recursion depth the interpreter leaves to [board.dig]: where [dig] runs
    out of it the call raises [RecursionError], which ends [play].  Each
    turn of the loop prints the board before it reads, and printing can
    raise.  The bounds test only prints a message; [board.dig] is called
    whatever its outcome.  After a loss [dug] is overwritten with all the
    cells of the grid and the board is printed once more.  Of the printing
    the exceptions are kept, not the text. *)
Inductive Verdict : Type :=
| Won
| GameOver
| AwaitInput
| Crashed (e : PyExn)
| CrashedZeroDivision
| CrashedRecursion.

(** [print(board)]: nothing, or the way it fails.  [Board_str] has no
    recursion to run out of. *)
Definition print_board (b : Board) : option Verdict :=
  match Board_str b with
  | Ret (Text _) => None
  | Ret ZeroDivisionError => Some CrashedZeroDivision
  | Raise e => Some (Crashed e)
  | OutOfFuel => Some CrashedRecursion
  end.

(** [board.dug] set to the list of all the cells of the grid. *)
Definition reveal_all (b : Board) : Board :=
  {| dimension_size := dimension_size b;
     num_bombs := num_bombs b;
     board := board b;
     dug := grid (dimension_size b) |}.

(** The code after the loop. *)
Definition after_loop (b : Board) (safe : bool) : Board * Verdict :=
  if safe then (b, Won)
  else
    let b := reveal_all b in
    match print_board b with
    | None => (b, GameOver)
    | Some crash => (b, crash)
    end.

Fixpoint play_loop (depth : nat) (b : Board) (nb : Z) (safe : bool)
    (inputs : list (Z * Z)) : Board * Verdict :=
  if Z.of_nat (size (dug b)) <? dimension_size b ^ 2 - nb then
    match print_board b with
    | Some crash => (b, crash)
    | None =>
        match inputs with
        | [] => (b, AwaitInput)
        | (row, col) :: inputs' =>
            match dig depth b row col with
            | (b', Ret true) => play_loop depth b' nb true inputs'
            | (b', Ret false) => after_loop b' false
            | (b', Raise e) => (b', Crashed e)
            | (b', OutOfFuel) => (b', CrashedRecursion)
            end
        end
    end
  else after_loop b safe.

Definition play (depth : nat) (dimension_size num_bombs : Z) (draws : list Z)
    (inputs : list (Z * Z)) : result (Board * Verdict) :=
  b ← Board_init dimension_size num_bombs draws ;
  Ret (play_loop depth b num_bombs true inputs).

(** ** Vocabulary of the properties *)

(** The outcomes a caller of a reveal operation tells apart. *)
Inductive RevealOutcome : Type :=
| Revealed
| AlreadyRevealed
| HitHazard
| OutOfBounds.

(** The cells a cascade from [(row, col)] looks at. *)
Definition neighbors (dim row col : Z) : list (Z * Z) :=
  r ← near dim row; c ← near dim col; [(r, c)].

(** One iteration of the cascade loop. *)
Definition visit (fuel : nat) (rc : Z * Z) (self : Board) : Board * result unit :=
  if bool_decide (rc ∈ dug self) then (self, Ret tt)
  else
    match dig fuel self rc.1 rc.2 with
    | (self', Ret _) => (self', Ret tt)
    | (self', Raise e) => (self', Raise e)
    | (self', OutOfFuel) => (self', OutOfFuel)
    end.

(** [dig] only ever adds to [dug]; nothing else of the board changes. *)
Definition extends (b b' : Board) : Prop :=
  dimension_size b' = dimension_size b ∧ num_bombs b' = num_bombs b ∧
  board b' = board b ∧ dug b ⊆ dug b'.

#[global] Instance extends_refl : Reflexive extends.
Proof. by intros b. Qed.

#[global] Instance extends_trans : Transitive extends.
Proof.
  intros a b c (? & ? & ? & ?) (? & ? & ? & ?). unfold extends.
  repeat split; [congruence..|set_solver].
Qed.

(** A [dim] by [dim] list of lists. *)
Definition shape (dim : Z) (g : Grid) : Prop :=
  length g = Z.to_nat dim ∧ Forall (λ r, length r = Z.to_nat dim) g.

(** The cell at a position inside the grid, without Python's index rules. *)
Definition cell (g : Grid) (r c : Z) : option Cell :=
  row ← g !! Z.to_nat r; row !! Z.to_nat c.

Definition upd (g : Grid) (r c : Z) (v : Cell) : Grid :=
  alter (<[Z.to_nat c := v]>) (Z.to_nat r) g.

(** Two cells are adjacent when they differ and are at most one row and one
    column apart: the 8-neighbourhood. *)
Definition adjacent (a b : Z * Z) : Prop :=
  a ≠ b ∧ b.1 - 1 ≤ a.1 ≤ b.1 + 1 ∧ b.2 - 1 ≤ a.2 ≤ b.2 + 1.

#[global] Instance adjacent_dec a b : Decision (adjacent a b).
Proof. unfold adjacent. apply _. Defined.

(** A cell holds a bomb. *)
Definition hazard (g : Grid) (rc : Z * Z) : Prop :=
  cell_at g rc.1 rc.2 = Ret Bomb.

#[global] Instance hazard_dec g rc : Decision (hazard g rc).
Proof. unfold hazard. apply _. Defined.

(** The number of bombs among the cells of the grid adjacent to
    [(row, col)], counted over the whole grid. *)
Definition adjacent_hazards (dim : Z) (g : Grid) (row col : Z) : Z :=
  Z.of_nat (length (filter (λ rc, adjacent rc (row, col) ∧ hazard g rc)
                           (grid_cells dim))).

(** The grid is square and every cell holds a bomb or the number of bombs
    around it. *)
Record board_ok (b : Board) : Prop := {
  ok_shape : shape (dimension_size b) (board b);
  ok_cells : ∀ r c v,
    (r, c) ∈ grid (dimension_size b) → cell_at (board b) r c = Ret v →
    v = Bomb ∨ v = Num (adjacent_hazards (dimension_size b) (board b) r c)
}.

(** A cell from which [dig] cascades: its count is not positive. *)
Definition cascades (g : Grid) (rc : Z * Z) : Prop :=
  ∃ n, cell_at g rc.1 rc.2 = Ret (Num n) ∧ (0 <? n) = false.

(** Every dug cell of the grid that cascades, those in [P] apart, has its
    whole neighbourhood dug. *)
Definition closed_except (P : gset (Z * Z)) (b : Board) : Prop :=
  ∀ rc, rc ∈ dug b → rc ∉ P → rc ∈ grid (dimension_size b) →
        cascades (board b) rc →
        ∀ rc', rc' ∈ neighbors (dimension_size b) rc.1 rc.2 → rc' ∈ dug b.

Definition closed (b : Board) : Prop := closed_except ∅ b.

(** The values [randint(0, dim**2 - 1)] can return. *)
Definition valid_draws (dim : Z) (draws : list Z) : Prop :=
  Forall (λ d, 0 ≤ d ≤ dim ^ 2 - 1) draws.

(** The bombs of a grid, and how many there are. *)
Definition hazards (dim : Z) (g : Grid) : list (Z * Z) :=
  filter (hazard g) (grid_cells dim).

Definition hazard_count (dim : Z) (g : Grid) : Z :=
  Z.of_nat (length (hazards dim g)).

(** A grid under construction: square, with [None] or a bomb in each cell. *)
Definition planting (dim : Z) (g : Grid) : Prop :=
  shape dim g ∧
  ∀ r c, (r, c) ∈ grid dim → cell_at g r c = Ret CNone ∨ cell_at g r c = Ret Bomb.

(** The body of the two loops of [assign_values_to_board]. *)
Definition assign_cell (dim : Z) (g : Grid) (rc : Z * Z) : result Grid :=
  v ← cell_at g rc.1 rc.2;
  if is_bomb v then Ret g
  else
    n ← get_num_neighboring_bombs dim g rc.1 rc.2;
    set_cell g rc.1 rc.2 (Num n).

(** The negation of the [while] condition: the loop stops digging. *)
Definition win_test (b : Board) (nb : Z) : bool :=
  negb (Z.of_nat (size (dug b)) <? dimension_size b ^ 2 - nb).

(** The cells without a bomb. *)
Definition safe_cells (dim : Z) (g : Grid) : gset (Z * Z) :=
  list_to_set (filter (λ rc, ¬ hazard g rc) (grid_cells dim)).

(** What [play] relies on between two digs. *)
Record in_play (b : Board) : Prop := {
  play_ok : board_ok b;
  play_dim : 0 ≤ dimension_size b;
  play_count : hazard_count (dimension_size b) (board b) = num_bombs b;
  play_grid : dug b ⊆ grid (dimension_size b);
  play_safe : ∀ rc, rc ∈ dug b → ¬ hazard (board b) rc
}.

(** ** The board used in the examples: 2 by 2, one bomb at [(0, 0)] *)

Definition corner_board : Board :=
  {| dimension_size := 2; num_bombs := 1;
     board := [[Bomb; Num 1]; [Num 1; Num 1]]; dug := ∅ |}.

(** 3 by 3, one bomb at [(2, 2)]: digging [(0, 0)] cascades. *)
Definition cascade_board : Board :=
  {| dimension_size := 3; num_bombs := 1;
     board := [[Num 0; Num 0; Num 0]; [Num 0; Num 1; Num 1]; [Num 0; Num 1; Bomb]];
     dug := ∅ |}.

(** ** Vocabulary of the further properties *)


(** The position [make_new_board] computes from a draw. *)
Definition draw_cell (dim loc : Z) : Z * Z := (loc `div` dim, loc `mod` dim).

(** 32 by 32 without a bomb: 1024 cells, more than a recursion depth of
    1000. *)
Definition wide_board : Board :=
  {| dimension_size := 32; num_bombs := 0;
     board := replicate 32 (replicate 32 (Num 0)); dug := ∅ |}.

(** ** Ranges and indexing *)

Lemma elem_of_py_range lo hi x : x ∈ py_range lo hi ↔ lo ≤ x < hi.
Proof. unfold py_range. rewrite elem_of_seqZ. lia. Qed.

Lemma NoDup_py_range lo hi : NoDup (py_range lo hi).
Proof. apply NoDup_seqZ. Qed.

Lemma length_py_range lo hi : length (py_range lo hi) = Z.to_nat (hi - lo).
Proof. apply length_seqZ. Qed.

Lemma elem_of_near dim x y :
  y ∈ near dim x ↔ 0 ≤ y < dim ∧ x - 1 ≤ y ≤ x + 1.
Proof. unfold near. rewrite elem_of_py_range. lia. Qed.

Lemma elem_of_grid_cells dim r c :
  (r, c) ∈ grid_cells dim ↔ 0 ≤ r < dim ∧ 0 ≤ c < dim.
Proof.
  unfold grid_cells. rewrite list_elem_of_bind. split.
  - intros (r' & Hin & Hr). apply list_elem_of_bind in Hin as (c' & Hin & Hc).
    apply list_elem_of_singleton in Hin. simplify_eq.
    rewrite elem_of_py_range in Hr, Hc. lia.
  - intros [Hr Hc]. exists r. rewrite list_elem_of_bind, elem_of_py_range.
    split; [|lia]. exists c. rewrite list_elem_of_singleton, elem_of_py_range.
    split; [done|lia].
Qed.

Lemma elem_of_grid_list dim rc : rc ∈ grid dim ↔ rc ∈ grid_cells dim.
Proof. unfold grid. apply elem_of_list_to_set. Qed.

Lemma elem_of_grid dim r c : (r, c) ∈ grid dim ↔ 0 ≤ r < dim ∧ 0 ≤ c < dim.
Proof. unfold grid. rewrite elem_of_list_to_set. apply elem_of_grid_cells. Qed.

Lemma py_norm_in_range len i :
  0 ≤ i < Z.of_nat len → py_norm len i = Some (Z.to_nat i).
Proof. intros H. unfold py_norm. by rewrite bool_decide_eq_true_2. Qed.

Lemma py_index_fuel {A : Type} (l : list A) i : py_index l i ≠ OutOfFuel.
Proof. unfold py_index. by repeat case_match. Qed.

Lemma cell_at_fuel g r c : cell_at g r c ≠ OutOfFuel.
Proof.
  unfold cell_at. destruct (py_index g r) as [row|e|] eqn:Hrow; simpl; [|done|].
  - apply py_index_fuel.
  - by apply py_index_fuel in Hrow.
Qed.

(** ** Loops and filters *)

Section loops.
Context {S X : Type}.
Implicit Types (xs : list X) (s : S).

(** Loops: a loop over two nested ranges is a loop over the pairs. *)
Lemma for_state_app (body : X → S → S * result unit) xs ys s :
  for_state body (xs ++ ys) s =
  match for_state body xs s with
  | (s', Ret _) => for_state body ys s'
  | other => other
  end.
Proof.
  revert s. induction xs as [|x xs IH]; intros s; simpl; [done|].
  destruct (body x s) as [s' [[]|e|]]; auto.
Qed.

(** A loop invariant [I] on the mutated object with a property [Q] of how
    each iteration ends. *)
Lemma for_state_inv (I : S → Prop) (Q : result unit → Prop)
    (body : X → S → S * result unit) (xs : list X) (s : S) :
  I s → Q (Ret tt) →
  (∀ x s, x ∈ xs → I s → I (body x s).1 ∧ Q (body x s).2) →
  I (for_state body xs s).1 ∧ Q (for_state body xs s).2.
Proof.
  revert s. induction xs as [|x xs IH]; intros s Hs HQ Hbody; [done|].
  simpl. destruct (Hbody x s) as [HI HQ']; [left | done |].
  destruct (body x s) as [s' [[]|e|]]; simpl in *; [|done..].
  apply IH; [done..|]. intros y s'' Hy. apply Hbody. by right.
Qed.

Lemma for_state_ext (I : S → Prop)
    (body1 body2 : X → S → S * result unit) (xs : list X) (s : S) :
  I s →
  (∀ x s, x ∈ xs → I s → body1 x s = body2 x s ∧ I (body1 x s).1) →
  for_state body1 xs s = for_state body2 xs s.
Proof.
  revert s. induction xs as [|x xs IH]; intros s Hs Hbody; [done|].
  simpl. destruct (Hbody x s) as [<- HI]; [left | done |].
  destruct (body1 x s) as [s' [[]|e|]]; simpl in *; [|done..].
  apply IH; [done|]. intros y s'' Hy. apply Hbody. by right.
Qed.

Lemma for_state_same (f g : X → S → S * result unit) xs : ∀ s,
  (for_state f xs s).2 ≠ OutOfFuel →
  (∀ x s, (f x s).2 ≠ OutOfFuel → g x s = f x s) →
  for_state g xs s = for_state f xs s.
Proof.
  induction xs as [|x xs IH]; intros s Hrun Hsame; [done|]. simpl in *.
  destruct (f x s) as [s' r] eqn:Hf.
  assert (r ≠ OutOfFuel) as Hr by (by destruct r as [[]| |]).
  rewrite Hsame by (by rewrite Hf). rewrite Hf.
  destruct r as [[]| |]; [by apply IH|done..].
Qed.

End loops.

Lemma for_state_nested {S X Y : Type} (f : X → Y → S → S * result unit)
    (xs : list X) (ys : list Y) (s : S) :
  for_state (λ x s, for_state (f x) ys s) xs s =
  for_state (λ p, f p.1 p.2) (x ← xs; y ← ys; [(x, y)]) s.
Proof.
  revert s. induction xs as [|x xs IH]; intros s; [done|].
  rewrite bind_cons, for_state_app. simpl.
  assert (Hrow : ∀ s, for_state (λ p, f p.1 p.2) (y ← ys; [(x, y)]) s
                      = for_state (f x) ys s).
  { clear. induction ys as [|y ys IH]; intros s; [done|]. simpl.
    destruct (f x y s) as [s' [[]|e|]]; auto. }
  rewrite Hrow. destruct (for_state (f x) ys s) as [s' [[]|e|]]; auto.
Qed.

Lemma foldM_app {A X : Type} (body : A → X → result A) xs ys a :
  foldM body (xs ++ ys) a = a' ← foldM body xs a; foldM body ys a'.
Proof.
  revert a. induction xs as [|x xs IH]; intros a; simpl; [done|].
  destruct (body a x) as [a'|e|]; simpl; auto.
Qed.

Lemma foldM_nested {A X Y : Type} (f : X → A → Y → result A)
    (xs : list X) (ys : list Y) (a : A) :
  foldM (λ a x, foldM (f x) ys a) xs a =
  foldM (λ a p, f p.1 a p.2) (x ← xs; y ← ys; [(x, y)]) a.
Proof.
  revert a. induction xs as [|x xs IH]; intros a; [done|].
  rewrite bind_cons, foldM_app. simpl.
  assert (Hrow : ∀ a, foldM (λ a p, f p.1 a p.2) (y ← ys; [(x, y)]) a
                      = foldM (f x) ys a).
  { clear. induction ys as [|y ys IH]; intros a; [done|]. simpl.
    destruct (f x a y) as [a'|e|]; simpl; auto. }
  rewrite Hrow. destruct (foldM (f x) ys a) as [a'|e|]; simpl; auto.
Qed.

Section filters.
Context {A : Type} `{EqDecision A} (P Q : A → Prop).
Context `{∀ x, Decision (P x)} `{∀ x, Decision (Q x)}.

Lemma filter_ext_in (l : list A) :
  (∀ y, y ∈ l → (P y ↔ Q y)) → filter P l = filter Q l.
Proof.
  induction l as [|a l IH]; intros Hiff; [done|].
  rewrite !filter_cons.
  assert (filter P l = filter Q l) as ->.
  { apply IH. intros y Hy. apply Hiff. by right. }
  destruct (Hiff a) as [H1 H2]; [left|].
  destruct (decide (P a)), (decide (Q a)); tauto.
Qed.

Lemma filter_length_add (l : list A) (x : A) :
  NoDup l → x ∈ l → ¬ P x → Q x → (∀ y, y ∈ l → y ≠ x → (P y ↔ Q y)) →
  length (filter Q l) = S (length (filter P l)).
Proof.
  intros Hnd Hx HP HQ Hrest.
  induction l as [|a l IH]; [by apply elem_of_nil in Hx|].
  apply NoDup_cons in Hnd as [Ha Hnd]. rewrite !filter_cons.
  destruct (decide (a = x)) as [->|Hne].
  - rewrite decide_True, decide_False by done. simpl. do 2 f_equal.
    symmetry. apply filter_ext_in. intros y Hy. apply Hrest; [by right|].
    by intros ->.
  - apply elem_of_cons in Hx as [->|Hx]; [done|].
    assert (length (filter Q l) = S (length (filter P l))) as Hl.
    { apply IH; [done..|]. intros y Hy. apply Hrest. by right. }
    destruct (Hrest a) as [H1 H2]; [left|done|].
    destruct (decide (P a)), (decide (Q a)); simpl; rewrite ?Hl; tauto || done.
Qed.

Lemma filter_short_witness (l : list A) :
  (length (filter P l) < length l)%nat → ∃ x, x ∈ l ∧ ¬ P x.
Proof.
  induction l as [|a l IH]; simpl; [lia|]. rewrite filter_cons.
  destruct (decide (P a)) as [HP|HP]; simpl; intros Hlt.
  - destruct IH as (x & Hx & HPx); [lia|]. exists x. split; [by right|done].
  - exists a. split; [left|done].
Qed.

End filters.

(** ** The recursion of [dig] *)

(** [dimension_size] is never assigned to, so the bounds of the inner
    [range] are the same in every iteration. *)
Lemma visit_dim fuel :
  (∀ b row col, dimension_size (dig fuel b row col).1 = dimension_size b) →
  ∀ rc s, dimension_size (visit fuel rc s).1 = dimension_size s.
Proof.
  intros IH rc s. unfold visit. case_bool_decide; [done|].
  specialize (IH s rc.1 rc.2). by destruct (dig _ _ _ _) as [s' [?|?|]].
Qed.

Lemma dig_dim fuel : ∀ b row col,
  dimension_size (dig fuel b row col).1 = dimension_size b.
Proof.
  induction fuel as [|n IH]; intros b row col; [done|].
  simpl. destruct (cell_at _ _ _) as [[| |v]|e|]; try done.
  destruct (0 <? v); [done|].
  match goal with |- context [for_state ?f0 ?xs0 ?s0] =>
    destruct (for_state_inv (λ s, dimension_size s = dimension_size b)
                (λ _, True) f0 xs0 s0) as [H _]; [done..| |]
  end.
  - intros r s _ Hs. split; [|done].
    match goal with |- context [for_state ?f0 ?xs0 ?s0] =>
      destruct (for_state_inv (λ s, dimension_size s = dimension_size b)
                  (λ _, True) f0 xs0 s0) as [H _]; [done..| |done]
    end.
    intros c s' _ Hs'. split; [|done].
    rewrite <- Hs'. apply (visit_dim n IH (r, c)).
  - by destruct (for_state _ _ _) as [s' [?|?|]].
Qed.

Lemma dig_S fuel self row col :
  dig (S fuel) self row col =
  let self := dug_add self (row, col) in
  match cell_at (board self) row col with
  | Raise e => (self, Raise e)
  | OutOfFuel => (self, OutOfFuel)
  | Ret Bomb => (self, Ret false)
  | Ret CNone => (self, Raise TypeError)
  | Ret (Num n) =>
      if 0 <? n then (self, Ret true)
      else
        match for_state (visit fuel) (neighbors (dimension_size self) row col) self with
        | (self', Ret _) => (self', Ret true)
        | (self', Raise e) => (self', Raise e)
        | (self', OutOfFuel) => (self', OutOfFuel)
        end
  end.
Proof.
  simpl. destruct (cell_at _ _ _) as [[| |n]|e|]; try done.
  destruct (0 <? n); [done|].
  unfold neighbors. rewrite <- (for_state_nested (λ r c, visit fuel (r, c))).
  match goal with |- context [for_state ?f0 ?xs0 ?s0] =>
    rewrite (for_state_ext (λ s, dimension_size s = dimension_size self)
      f0 (λ r s, for_state (λ c, visit fuel (r, c)) (near (dimension_size self) col) s)
      xs0 s0); [done..|]
  end.
  intros r s _ Hs. rewrite Hs. split; [done|].
  match goal with |- context [for_state ?f0 ?xs0 ?s0] =>
    destruct (for_state_inv (λ s, dimension_size s = dimension_size self)
                (λ _, True) f0 xs0 s0) as [H _]; [done..| |done]
  end.
  intros c s' _ Hs'. split; [|done].
  rewrite <- Hs'. apply (visit_dim fuel (dig_dim fuel) (r, c)).
Qed.

Lemma elem_of_neighbors dim row col r c :
  (r, c) ∈ neighbors dim row col ↔
  (0 ≤ r < dim ∧ 0 ≤ c < dim) ∧ row - 1 ≤ r ≤ row + 1 ∧ col - 1 ≤ c ≤ col + 1.
Proof.
  unfold neighbors. rewrite list_elem_of_bind. split.
  - intros (r' & Hin & Hr). apply list_elem_of_bind in Hin as (c' & Hin & Hc).
    apply list_elem_of_singleton in Hin. simplify_eq.
    rewrite elem_of_near in Hr, Hc. lia.
  - intros (? & ? & ?). exists r. rewrite list_elem_of_bind, elem_of_near.
    split; [|lia]. exists c. rewrite list_elem_of_singleton, elem_of_near.
    split; [done|lia].
Qed.

Lemma neighbors_grid dim row col rc : rc ∈ neighbors dim row col → rc ∈ grid dim.
Proof.
  destruct rc as [r c]. rewrite elem_of_neighbors, elem_of_grid. tauto.
Qed.

Lemma extends_dug_add b rc : extends b (dug_add b rc).
Proof. unfold extends, dug_add; simpl. repeat split. set_solver. Qed.

Lemma visit_cases fuel rc s :
  (rc ∈ dug s ∧ visit fuel rc s = (s, Ret tt)) ∨
  ((rc ∉ dug s) ∧ (visit fuel rc s).1 = (dig fuel s rc.1 rc.2).1 ∧
   (match (dig fuel s rc.1 rc.2).2 with
    | Ret _ => (visit fuel rc s).2 = Ret tt
    | Raise e => (visit fuel rc s).2 = Raise e
    | OutOfFuel => (visit fuel rc s).2 = OutOfFuel
    end)).
Proof.
  unfold visit. case_bool_decide; [by left|right].
  split; [done|]. by destruct (dig _ _ _ _) as [s' [?|?|]].
Qed.

Lemma dig_extends fuel : ∀ b row col, extends b (dig fuel b row col).1.
Proof.
  induction fuel as [|n IH]; intros b row col; [done|].
  rewrite dig_S. cbv zeta.
  pose proof (extends_dug_add b (row, col)) as Hadd.
  destruct (cell_at _ _ _) as [[| |v]|e|]; try done.
  destruct (0 <? v); [done|].
  destruct (for_state_inv (extends b) (λ _, True) (visit n)
    (neighbors (dimension_size (dug_add b (row, col))) row col)
    (dug_add b (row, col))) as [H _]; [done..| |].
  - intros rc s _ Hs. split; [|done].
    destruct (visit_cases n rc s) as [[_ ->]|(_ & -> & _)]; [done|].
    etrans; [done|apply IH].
  - by destruct (for_state _ _ _) as [s' [?|?|]].
Qed.

Lemma dig_dug_start fuel b row col :
  (row, col) ∈ dug (dig (S fuel) b row col).1.
Proof.
  rewrite dig_S. cbv zeta.
  assert ((row, col) ∈ dug (dug_add b (row, col))) as Hin by (simpl; set_solver).
  destruct (cell_at _ _ _) as [[| |v]|e|]; try done.
  destruct (0 <? v); [done|].
  destruct (for_state_inv (extends (dug_add b (row, col))) (λ _, True) (visit fuel)
    (neighbors (dimension_size (dug_add b (row, col))) row col)
    (dug_add b (row, col))) as [H _]; [done..| |].
  - intros rc s _ Hs. split; [|done].
    destruct (visit_cases fuel rc s) as [[_ ->]|(_ & -> & _)]; [done|].
    etrans; [done|apply dig_extends].
  - destruct H as (_ & _ & _ & H).
    by destruct (for_state _ _ _) as [s' [?|?|]]; apply H.
Qed.

(** ** Termination of the cascade

    Every recursive call digs a cell of the grid that is not in [dug] yet,
    so the number of such cells bounds the depth of the recursion. *)

Lemma undug_dug_add_lt s rc :
  rc ∈ grid (dimension_size s) → rc ∉ dug s →
  (undug (dug_add s rc) < undug s)%nat.
Proof.
  intros Hg Hd. unfold undug. simpl. apply subset_size. set_solver.
Qed.

Lemma undug_extends b s : extends b s → (undug s ≤ undug b)%nat.
Proof.
  intros (Hdim & _ & _ & Hsub). unfold undug. rewrite Hdim.
  apply subseteq_size. set_solver.
Qed.

Lemma dig_fuel_enough fuel : ∀ b row col,
  (undug (dug_add b (row, col)) < fuel)%nat →
  (dig fuel b row col).2 ≠ OutOfFuel.
Proof.
  induction fuel as [|n IH]; intros b row col Hfuel; [lia|].
  rewrite dig_S. cbv zeta.
  destruct (cell_at _ _ _) as [[| |v]|e|] eqn:Hcell; try done.
  2: by apply cell_at_fuel in Hcell.
  destruct (0 <? v); [done|].
  set (b1 := dug_add b (row, col)) in *.
  destruct (for_state_inv (extends b1) (λ r, r ≠ OutOfFuel) (visit n)
    (neighbors (dimension_size b1) row col) b1) as [_ H]; [done..| |].
  - intros rc s Hrc Hs.
    destruct (visit_cases n rc s) as [[_ ->]|(Hnew & -> & Hres)]; [done|].
    split; [etrans; [done|apply dig_extends]|].
    assert ((dig n s rc.1 rc.2).2 ≠ OutOfFuel) as Hne.
    { apply IH. destruct rc as [r c]; simpl.
      pose proof (undug_extends _ _ Hs).
      assert (undug (dug_add s (r, c)) < undug s)%nat; [|lia].
      apply undug_dug_add_lt; [|done].
      destruct Hs as (-> & _). by eapply neighbors_grid. }
    destruct (dig n s rc.1 rc.2).2; [by rewrite Hres|by rewrite Hres|done].
  - by destruct (for_state _ _ _) as [s' [?|?|]].
Qed.

Lemma undug_dug_add_le b rc : (undug (dug_add b rc) ≤ undug b)%nat.
Proof. apply undug_extends, extends_dug_add. Qed.

(** ** Grids of the right shape *)

Lemma py_index_lookup {A : Type} (l : list A) i :
  0 ≤ i < Z.of_nat (length l) →
  ∃ x, l !! Z.to_nat i = Some x ∧ py_index l i = Ret x.
Proof.
  intros Hi. unfold py_index. rewrite py_norm_in_range by done.
  destruct (lookup_lt_is_Some_2 l (Z.to_nat i)) as [x Hx]; [lia|].
  exists x. by rewrite Hx.
Qed.

Lemma shape_row dim g r row :
  shape dim g → g !! r = Some row → length row = Z.to_nat dim.
Proof.
  intros [_ Hrows] Hr. rewrite Forall_forall in Hrows.
  apply Hrows, list_elem_of_lookup. eauto.
Qed.

Lemma cell_at_cell dim g r c :
  shape dim g → 0 ≤ r < dim → 0 ≤ c < dim →
  ∃ v, cell g r c = Some v ∧ cell_at g r c = Ret v.
Proof.
  intros Hsh Hr Hc. pose proof Hsh as [Hlen _].
  destruct (py_index_lookup g r) as (row & Hrow & Hrow'); [lia|].
  pose proof (shape_row _ _ _ _ Hsh Hrow) as Hlenr.
  destruct (py_index_lookup row c) as (v & Hv & Hv'); [lia|].
  exists v. unfold cell, cell_at. rewrite Hrow, Hrow'. by simpl.
Qed.

Lemma cell_at_iff dim g r c v :
  shape dim g → 0 ≤ r < dim → 0 ≤ c < dim →
  cell_at g r c = Ret v ↔ cell g r c = Some v.
Proof.
  intros Hsh Hr Hc. destruct (cell_at_cell dim g r c) as (w & -> & ->); [done..|].
  split; congruence.
Qed.

Lemma set_cell_upd dim g r c v :
  shape dim g → 0 ≤ r < dim → 0 ≤ c < dim →
  set_cell g r c v = Ret (upd g r c v).
Proof.
  intros Hsh Hr Hc. pose proof Hsh as [Hlen _].
  destruct (py_index_lookup g r) as (row & Hrow & Hrow'); [lia|].
  pose proof (shape_row _ _ _ _ Hsh Hrow) as Hlenr.
  unfold set_cell, py_setitem. rewrite Hrow'. simpl.
  rewrite !py_norm_in_range by lia. simpl. f_equal.
  unfold upd. apply list_eq. intros i.
  destruct (decide (i = Z.to_nat r)) as [->|Hne].
  - rewrite list_lookup_insert_eq by lia.
    rewrite list_lookup_alter, decide_True, Hrow; done.
  - by rewrite list_lookup_insert_ne, list_lookup_alter_ne.
Qed.

Lemma shape_upd dim g r c v : shape dim g → shape dim (upd g r c v).
Proof.
  intros [Hlen Hrows]. unfold upd. split; [by rewrite length_alter|].
  apply Forall_forall. intros row Hin.
  apply list_elem_of_lookup in Hin as [i Hi].
  rewrite list_lookup_alter in Hi. rewrite Forall_forall in Hrows.
  case_decide; simplify_eq.
  - destruct (g !! Z.to_nat r) as [row'|] eqn:Hrow; simplify_eq/=.
    rewrite length_insert. apply Hrows, list_elem_of_lookup; eauto.
  - apply Hrows, list_elem_of_lookup; eauto.
Qed.

Lemma cell_upd_eq dim g r c v :
  shape dim g → 0 ≤ r < dim → 0 ≤ c < dim → cell (upd g r c v) r c = Some v.
Proof.
  intros Hsh Hr Hc. pose proof Hsh as [Hlen _].
  destruct (py_index_lookup g r) as (row & Hrow & _); [lia|].
  pose proof (shape_row _ _ _ _ Hsh Hrow) as Hlenr.
  unfold cell, upd. rewrite list_lookup_alter, decide_True, Hrow by done. simpl.
  apply list_lookup_insert_eq. lia.
Qed.

Lemma cell_upd_ne g r c v r' c' :
  0 ≤ r → 0 ≤ c → 0 ≤ r' → 0 ≤ c' → (r', c') ≠ (r, c) →
  cell (upd g r c v) r' c' = cell g r' c'.
Proof.
  intros ? ? ? ? Hne. unfold cell, upd.
  destruct (decide (Z.to_nat r = Z.to_nat r')) as [Heq|?].
  - rewrite list_lookup_alter, decide_True by done.
    assert (r' = r) as -> by lia.
    destruct (g !! Z.to_nat r) as [row|]; simpl; [|done].
    apply list_lookup_insert_ne. intros ?. apply Hne. f_equal. lia.
  - by rewrite list_lookup_alter_ne.
Qed.

(** ** Counting neighbouring bombs *)

Lemma NoDup_pairs (xs ys : list Z) :
  NoDup xs → NoDup ys → NoDup (x ← xs; y ← ys; [(x, y)]).
Proof.
  intros Hxs Hys. apply NoDup_bind; [| |done].
  - intros x1 x2 [a b] _ _ H1 H2.
    apply list_elem_of_bind in H1 as (? & H1 & _).
    apply list_elem_of_bind in H2 as (? & H2 & _).
    apply list_elem_of_singleton in H1, H2. congruence.
  - intros x _. apply NoDup_bind; [| |done].
    + intros y1 y2 [a b] _ _ H1 H2.
      apply list_elem_of_singleton in H1, H2. congruence.
    + intros y _. apply NoDup_singleton.
Qed.

Lemma NoDup_grid_cells dim : NoDup (grid_cells dim).
Proof. apply NoDup_pairs; apply NoDup_py_range. Qed.

Lemma NoDup_neighbors dim row col : NoDup (neighbors dim row col).
Proof. apply NoDup_pairs; apply NoDup_py_range. Qed.

Lemma get_num_neighboring_bombs_flat dim g row col :
  get_num_neighboring_bombs dim g row col =
  foldM (λ num rc,
      if bool_decide (rc.1 = row) && bool_decide (rc.2 = col) then Ret num
      else
        v ← cell_at g rc.1 rc.2;
        if is_bomb v then Ret (num + 1) else Ret num)
    (neighbors dim row col) 0.
Proof.
  unfold get_num_neighboring_bombs, neighbors.
  by rewrite (foldM_nested (λ r num c,
    if bool_decide (r = row) && bool_decide (c = col) then Ret num
    else v ← cell_at g r c; if is_bomb v then Ret (num + 1) else Ret num)).
Qed.

Lemma count_loop g row col xs num :
  (∀ rc, rc ∈ xs → row - 1 ≤ rc.1 ≤ row + 1 ∧ col - 1 ≤ rc.2 ≤ col + 1 ∧
                   ∃ v, cell_at g rc.1 rc.2 = Ret v) →
  foldM (λ num rc,
      if bool_decide (rc.1 = row) && bool_decide (rc.2 = col) then Ret num
      else
        v ← cell_at g rc.1 rc.2;
        if is_bomb v then Ret (num + 1) else Ret num) xs num =
  Ret (num + Z.of_nat (length
         (filter (λ rc, adjacent rc (row, col) ∧ hazard g rc) xs))).
Proof.
  revert num. induction xs as [|[r c] xs IH]; intros num Hxs.
  { simpl. f_equal. lia. }
  assert (∀ rc, rc ∈ xs → row - 1 ≤ rc.1 ≤ row + 1 ∧ col - 1 ≤ rc.2 ≤ col + 1 ∧
                          ∃ v, cell_at g rc.1 rc.2 = Ret v) as Hxs'.
  { intros rc Hrc. apply Hxs. by right. }
  destruct (Hxs (r, c)) as (Hr & Hc & v & Hv); [left|]. simpl in Hr, Hc, Hv.
  cbn [foldM fst snd]. rewrite filter_cons.
  destruct (bool_decide (r = row) && bool_decide (c = col)) eqn:Hself.
  - apply andb_true_iff in Hself as [Hr'%bool_decide_eq_true Hc'%bool_decide_eq_true].
    subst. rewrite decide_False by (intros [[? _] _]; done).
    simpl. by rewrite IH.
  - rewrite Hv. simpl.
    assert ((r, c) ≠ (row, col)) as Hne.
    { intros [= -> ->]. by rewrite !bool_decide_eq_true_2 in Hself. }
    destruct v; simpl; rewrite IH by done.
    + rewrite decide_False; [done|]. intros [_ H]. unfold hazard in H.
      simpl in H. congruence.
    + rewrite decide_True by done. simpl. f_equal. lia.
    + rewrite decide_False; [done|]. intros [_ H]. unfold hazard in H.
      simpl in H. congruence.
Qed.

(** The loop of [get_num_neighboring_bombs] computes that number. *)
Lemma get_num_neighboring_bombs_spec dim g row col :
  shape dim g →
  get_num_neighboring_bombs dim g row col = Ret (adjacent_hazards dim g row col).
Proof.
  intros Hsh. rewrite get_num_neighboring_bombs_flat, count_loop.
  - unfold adjacent_hazards. rewrite Z.add_0_l. do 2 f_equal.
    apply Permutation_length, NoDup_Permutation.
    + apply NoDup_filter, NoDup_neighbors.
    + apply NoDup_filter, NoDup_grid_cells.
    + intros [r c]. rewrite !list_elem_of_filter, elem_of_neighbors,
        elem_of_grid_cells. unfold adjacent. simpl. tauto.
  - intros [r c] Hrc. apply elem_of_neighbors in Hrc as ([Hr Hc] & ? & ?).
    simpl. split_and!; [lia..|].
    destruct (cell_at_cell dim g r c) as (v & _ & Hv); eauto.
Qed.

Lemma adjacent_hazards_zero dim g row col r c :
  adjacent_hazards dim g row col ≤ 0 →
  (r, c) ∈ neighbors dim row col → (r, c) ≠ (row, col) → ¬ hazard g (r, c).
Proof.
  unfold adjacent_hazards. intros Hz Hn Hne Hhaz.
  assert ((r, c) ∈ filter (λ rc, adjacent rc (row, col) ∧ hazard g rc)
                          (grid_cells dim)) as Hin.
  { apply list_elem_of_filter. apply elem_of_neighbors in Hn as (? & ? & ?).
    split; [|by apply elem_of_grid_cells]. split; [|done].
    unfold adjacent; simpl. split; [done|lia]. }
  destruct (filter _ _); [by apply elem_of_nil in Hin|]. simpl in Hz. lia.
Qed.

(** ** Boards as [__init__] leaves them *)

Lemma board_ok_extends b s : extends b s → board_ok b → board_ok s.
Proof.
  intros (Hdim & _ & Hboard & _) [Hsh Hcells].
  split; rewrite Hdim, Hboard; done.
Qed.

Lemma board_ok_cell b r c :
  board_ok b → (r, c) ∈ grid (dimension_size b) →
  ∃ v, cell_at (board b) r c = Ret v ∧
       (v = Bomb ∨ v = Num (adjacent_hazards (dimension_size b) (board b) r c)).
Proof.
  intros [Hsh Hcells] Hg. pose proof Hg as [Hr Hc]%elem_of_grid.
  destruct (cell_at_cell _ _ r c Hsh) as (v & _ & Hv); [done..|]. eauto.
Qed.

(** A completed loop has dug every cell it looked at. *)
Lemma for_state_visit_all fuel xs : ∀ s s',
  for_state (visit fuel) xs s = (s', Ret tt) →
  extends s s' ∧ ∀ rc, rc ∈ xs → rc ∈ dug s'.
Proof.
  induction xs as [|x xs IH]; intros s s' Hrun; simpl in Hrun.
  { simplify_eq. split; [done|]. by intros rc ?%elem_of_nil. }
  destruct (visit fuel x s) as [s1 [[]| |]] eqn:Hx; simplify_eq.
  destruct (IH _ _ Hrun) as [Hext Hall].
  assert (extends s s1 ∧ x ∈ dug s1) as [Hext1 Hx1].
  { unfold visit in Hx. case_bool_decide; [by simplify_eq|].
    destruct fuel as [|n]; [done|].
    pose proof (dig_extends (S n) s x.1 x.2) as He.
    pose proof (dig_dug_start n s x.1 x.2) as Hd.
    destruct (dig (S n) s x.1 x.2) as [s2 [?| |]]; simplify_eq.
    by destruct x. }
  split; [by etrans|]. intros rc [->|Hrc]%elem_of_cons; [|by apply Hall].
  destruct Hext as (_ & _ & _ & Hsub). by apply Hsub.
Qed.

(** A loop over cells that are all dug changes nothing. *)
Lemma for_state_visit_skip fuel xs s :
  (∀ rc, rc ∈ xs → rc ∈ dug s) → for_state (visit fuel) xs s = (s, Ret tt).
Proof.
  induction xs as [|x xs IH]; intros Hall; [done|]. simpl.
  unfold visit at 1. rewrite bool_decide_eq_true_2 by (apply Hall; left).
  apply IH. intros rc Hrc. apply Hall. by right.
Qed.

(** On such a board, digging inside the grid never raises: it answers
    [False] on a bomb and [True] otherwise. *)
Lemma dig_in_grid fuel : ∀ b row col,
  board_ok b → (row, col) ∈ grid (dimension_size b) →
  (undug (dug_add b (row, col)) < fuel)%nat →
  ∃ v, cell_at (board b) row col = Ret v ∧
       (dig fuel b row col).2 = Ret (negb (is_bomb v)).
Proof.
  induction fuel as [|n IH]; intros b row col Hok Hg Hfuel; [lia|].
  destruct (board_ok_cell b row col) as (v & Hv & Hcase); [done..|].
  exists v. split; [done|]. rewrite dig_S. cbv zeta.
  change (board (dug_add b (row, col))) with (board b). rewrite Hv.
  destruct Hcase as [->| ->]; [done|].
  destruct (0 <? _); [done|].
  set (b1 := dug_add b (row, col)) in *.
  destruct (for_state_inv (extends b1) (λ r, r = Ret tt) (visit n)
    (neighbors (dimension_size b1) row col) b1) as [_ H]; [done..| |].
  - intros rc s Hrc Hs.
    destruct (visit_cases n rc s) as [[_ ->]|(Hnew & -> & Hres)]; [done|].
    split; [etrans; [done|apply dig_extends]|].
    destruct (IH s rc.1 rc.2) as (w & _ & Hw).
    + eapply board_ok_extends; [|done]. etrans; [apply extends_dug_add|done].
    + destruct Hs as (-> & _). destruct rc. by eapply neighbors_grid.
    + destruct rc as [r c]; simpl.
      pose proof (undug_extends _ _ Hs).
      assert (undug (dug_add s (r, c)) < undug s)%nat; [|lia].
      apply undug_dug_add_lt; [|done].
      destruct Hs as (-> & _). by eapply neighbors_grid.
    + by rewrite Hw in Hres.
  - destruct (for_state _ _ _) as [s' r]. simpl in H. by subst.
Qed.

(** The cells a dig adds lie in the grid, the starting cell apart. *)
Lemma dig_new_in_grid fuel : ∀ b row col rc,
  rc ∈ dug (dig fuel b row col).1 →
  rc ∈ dug b ∨ rc = (row, col) ∨ rc ∈ grid (dimension_size b).
Proof.
  induction fuel as [|n IH]; intros b row col rc; [by left|].
  rewrite dig_S. cbv zeta.
  set (b1 := dug_add b (row, col)).
  assert (∀ rc, rc ∈ dug b1 →
    rc ∈ dug b ∨ rc = (row, col) ∨ rc ∈ grid (dimension_size b)) as Hb1.
  { simpl. set_solver. }
  destruct (cell_at _ _ _) as [[| |v]|e|]; try apply Hb1.
  destruct (0 <? v); [apply Hb1|].
  destruct (for_state_inv
    (λ s, dimension_size s = dimension_size b ∧ ∀ rc, rc ∈ dug s →
       rc ∈ dug b ∨ rc = (row, col) ∨ rc ∈ grid (dimension_size b))
    (λ _, True) (visit n)
    (neighbors (dimension_size b1) row col) b1) as [[_ H] _]; [done..| |].
  - intros x s Hx [Hdim Hs]. split; [|done].
    destruct (visit_cases n x s) as [[_ ->]|(Hnew & -> & _)]; [done|].
    split; [by rewrite dig_dim|]. intros y Hy.
    apply IH in Hy as [Hy|[->|Hy]]; [by apply Hs| |by rewrite <- Hdim; auto].
    right; right. destruct x. eapply neighbors_grid, Hx.
  - by destruct (for_state _ _ _) as [s' [?|?|]]; apply H.
Qed.

(** ** The cascade stays on safe cells *)

Lemma zero_cell_neighbors_safe b row col n rc :
  board_ok b → (row, col) ∈ grid (dimension_size b) →
  cell_at (board b) row col = Ret (Num n) → (0 <? n) = false →
  rc ∈ neighbors (dimension_size b) row col → ¬ hazard (board b) rc.
Proof.
  intros Hok Hg Hcell Hn Hrc. destruct rc as [r c].
  destruct (decide ((r, c) = (row, col))) as [[= -> ->]|Hne].
  { unfold hazard; simpl. congruence. }
  destruct (ok_cells b Hok row col _ Hg Hcell) as [?|[= ->]]; [done|].
  eapply adjacent_hazards_zero; [|done..]. lia.
Qed.

Lemma dig_safe fuel : ∀ b row col,
  board_ok b → (row, col) ∈ grid (dimension_size b) →
  ¬ hazard (board b) (row, col) →
  ∀ rc, rc ∈ dug (dig fuel b row col).1 →
        rc ∈ dug b ∨ (rc ∈ grid (dimension_size b) ∧ ¬ hazard (board b) rc).
Proof.
  induction fuel as [|n IH]; intros b row col Hok Hg Hsafe; [by left|].
  rewrite dig_S. cbv zeta.
  set (b1 := dug_add b (row, col)).
  assert (∀ rc, rc ∈ dug b1 →
    rc ∈ dug b ∨ (rc ∈ grid (dimension_size b) ∧ ¬ hazard (board b) rc)) as Hb1.
  { simpl. intros rc [->%elem_of_singleton|?]%elem_of_union; auto. }
  change (board b1) with (board b).
  destruct (cell_at (board b) row col) as [[| |v]|e|] eqn:Hcell; try apply Hb1.
  destruct (0 <? v) eqn:Hv; [apply Hb1|].
  destruct (for_state_inv
    (λ s, extends b s ∧ ∀ rc, rc ∈ dug s →
       rc ∈ dug b ∨ (rc ∈ grid (dimension_size b) ∧ ¬ hazard (board b) rc))
    (λ _, True) (visit n)
    (neighbors (dimension_size b1) row col) b1) as [[_ H] _]; [|done| |].
  - split; [apply extends_dug_add|done].
  - intros x s Hx [Hext Hs]. split; [|done].
    destruct (visit_cases n x s) as [[_ ->]|(Hnew & -> & _)]; [done|].
    split; [etrans; [done|apply dig_extends]|]. intros y Hy.
    pose proof Hext as (Hdim & _ & Hboard & _).
    apply IH in Hy as [Hy|Hy].
    + by apply Hs.
    + right. by rewrite <- Hdim, <- Hboard.
    + by eapply board_ok_extends.
    + rewrite Hdim. destruct x. by eapply neighbors_grid.
    + rewrite Hboard. destruct x as [r c].
      by eapply (zero_cell_neighbors_safe b row col v).
  - by destruct (for_state _ _ _) as [s' [?|?|]]; apply H.
Qed.

(** ** Cascade-closed boards *)

Lemma closed_initial b : dug b = ∅ → closed b.
Proof. intros Hd rc Hrc. rewrite Hd in Hrc. set_solver. Qed.

Lemma dig_closed_except fuel : ∀ b row col P,
  board_ok b → (undug (dug_add b (row, col)) < fuel)%nat →
  closed_except P b → closed_except P (dig fuel b row col).1.
Proof.
  induction fuel as [|n IH]; intros b row col P Hok Hfuel Hcl; [lia|].
  rewrite dig_S. cbv zeta.
  set (b1 := dug_add b (row, col)) in *.
  assert (closed_except ({[ (row, col) ]} ∪ P) b1) as Hb1.
  { intros rc Hrc HP Hg Hc rc' Hrc'. simpl in *.
    apply elem_of_union_r. eapply (Hcl rc); [set_solver..|done|done]. }
  (* when the dig stops at its first cell, that cell does not cascade *)
  assert (¬ (cascades (board b) (row, col)) → closed_except P b1) as Hstop.
  { intros Hnc rc Hrc HP Hg Hc rc' Hrc'.
    destruct (decide (rc = (row, col))) as [->|Hne]; [done|].
    eapply (Hb1 rc); [done|set_solver|done..]. }
  change (board b1) with (board b).
  destruct (cell_at (board b) row col) as [[| |v]|e|] eqn:Hcell;
    try (apply Hstop; intros (m & Hm & _); simpl in Hm; congruence).
  destruct (0 <? v) eqn:Hv.
  { apply Hstop. intros (m & Hm & Hm'). simpl in Hm. congruence. }
  destruct (for_state_inv
    (λ s, extends b1 s ∧ closed_except ({[ (row, col) ]} ∪ P) s)
    (λ r, r = Ret tt) (visit n)
    (neighbors (dimension_size b1) row col) b1) as [[Hext H] Hret]; [done..| |].
  - intros x s Hx [Hext Hs].
    destruct (visit_cases n x s) as [[_ ->]|(Hnew & -> & Hres)]; [done|].
    assert (board_ok s) as Hoks.
    { eapply board_ok_extends; [|done]. etrans; [apply extends_dug_add|done]. }
    assert (x ∈ grid (dimension_size s)) as Hxg.
    { destruct Hext as (-> & _). by eapply neighbors_grid. }
    assert (undug (dug_add s x) < n)%nat as Hfuel'.
    { pose proof (undug_extends _ _ Hext).
      assert (undug (dug_add s x) < undug s)%nat; [|lia].
      by apply undug_dug_add_lt. }
    destruct x as [r c]. split_and!.
    + etrans; [done|apply dig_extends].
    + by apply IH.
    + destruct (dig_in_grid n s r c) as (w & _ & Hw); [done..|].
      simpl in Hres. by rewrite Hw in Hres.
  - destruct (for_state _ _ _) as [s' r] eqn:Hrun. simpl in *. subst r.
    apply for_state_visit_all in Hrun as [_ Hall].
    intros rc Hrc HP Hg Hc rc' Hrc'.
    pose proof Hext as (Hdim & _ & Hboard & Hsub).
    destruct (decide (rc = (row, col))) as [->|Hne].
    + apply Hall. simpl in Hrc'. by rewrite Hdim in Hrc'.
    + simpl in *. eapply (H rc); [done|set_solver|done..].
Qed.

(** Closedness is kept by every call of [dig]. *)
Lemma dig_closed fuel b row col :
  board_ok b → (undug b < fuel)%nat → closed b →
  closed (dig fuel b row col).1.
Proof.
  intros Hok Hfuel. apply dig_closed_except; [done|].
  pose proof (undug_dug_add_le b (row, col)). lia.
Qed.

(** ** Construction *)

Lemma cell_at_upd dim g r c v r' c' :
  shape dim g → (r, c) ∈ grid dim → (r', c') ∈ grid dim →
  cell_at (upd g r c v) r' c' =
  if decide ((r', c') = (r, c)) then Ret v else cell_at g r' c'.
Proof.
  intros Hsh [Hr Hc]%elem_of_grid [Hr' Hc']%elem_of_grid.
  pose proof (shape_upd dim g r c v Hsh) as Hsh'.
  destruct (cell_at_cell dim (upd g r c v) r' c') as (w & Hw & ->); [done..|].
  case_decide as Heq.
  - simplify_eq. rewrite (cell_upd_eq dim) in Hw by done. congruence.
  - rewrite cell_upd_ne in Hw by (done || lia).
    symmetry. by apply (cell_at_iff dim).
Qed.

Lemma length_grid_cells dim :
  length (grid_cells dim) = (Z.to_nat dim * Z.to_nat dim)%nat.
Proof.
  unfold grid_cells.
  assert (∀ xs : list Z, length (r ← xs; c ← py_range 0 dim; [(r, c)])
                         = (length xs * Z.to_nat dim)%nat) as Hlen.
  { induction xs as [|x xs IH]; [done|]. rewrite bind_cons, length_app, IH.
    simpl. f_equal.
    assert (∀ ys : list Z, length (c ← ys; [(x, c)]) = length ys) as ->.
    { induction ys as [|y ys IHy]; [done|]. rewrite bind_cons. simpl. by f_equal. }
    rewrite length_py_range. f_equal. lia. }
  rewrite Hlen, length_py_range. f_equal. lia.
Qed.

Lemma size_grid dim : size (grid dim) = (Z.to_nat dim * Z.to_nat dim)%nat.
Proof.
  unfold grid. rewrite size_list_to_set by apply NoDup_grid_cells.
  apply length_grid_cells.
Qed.

Lemma undug_le_grid b :
  (undug b ≤ Z.to_nat (dimension_size b) * Z.to_nat (dimension_size b))%nat.
Proof.
  unfold undug. rewrite <- size_grid. apply subseteq_size. set_solver.
Qed.

Lemma hazard_count_le dim g : 0 ≤ dim → hazard_count dim g ≤ dim ^ 2.
Proof.
  intros Hdim. unfold hazard_count, hazards.
  pose proof (length_filter (hazard g) (grid_cells dim)) as Hle.
  rewrite length_grid_cells in Hle. nia.
Qed.

Lemma draw_in_grid dim loc :
  1 ≤ dim → 0 ≤ loc ≤ dim ^ 2 - 1 → (loc `div` dim, loc `mod` dim) ∈ grid dim.
Proof.
  intros Hdim Hloc. apply elem_of_grid.
  pose proof (Z.mod_pos_bound loc dim). pose proof (Z.div_pos loc dim).
  assert (loc `div` dim < dim); [|lia].
  apply Z.div_lt_upper_bound; nia.
Qed.

Lemma planting_upd dim g r c :
  planting dim g → (r, c) ∈ grid dim → ¬ hazard g (r, c) →
  planting dim (upd g r c Bomb) ∧
  hazard_count dim (upd g r c Bomb) = hazard_count dim g + 1.
Proof.
  intros [Hsh Hcells] Hg Hsafe. split; [split|].
  - by apply shape_upd.
  - intros r' c' Hg'. rewrite (cell_at_upd dim) by done.
    case_decide; [by right|by apply Hcells].
  - unfold hazard_count, hazards.
    rewrite (filter_length_add (hazard g) (hazard (upd g r c Bomb)) _ (r, c)).
    + lia.
    + apply NoDup_grid_cells.
    + by apply elem_of_grid_list.
    + done.
    + unfold hazard. simpl. rewrite (cell_at_upd dim) by done.
      by rewrite decide_True.
    + intros [r' c'] Hin Hne. unfold hazard. simpl.
      rewrite (cell_at_upd dim), decide_False; [done..|].
      by apply elem_of_grid_list.
Qed.

Lemma plant_bombs_spec dim nb draws : ∀ g planted g',
  1 ≤ dim → valid_draws dim draws → planting dim g →
  hazard_count dim g = planted → planted ≤ nb →
  plant_bombs dim nb draws g planted = Ret g' →
  planting dim g' ∧ hazard_count dim g' = nb.
Proof.
  induction draws as [|loc draws IH]; intros g planted g' Hdim Hdraws Hg Hcount Hle Hrun.
  - simpl in Hrun. destruct (planted <? nb) eqn:Hlt; [by case_match|].
    simplify_eq. split; [done|lia].
  - apply Forall_cons in Hdraws as [Hloc Hdraws].
    cbn [plant_bombs] in Hrun.
    destruct (planted <? nb) eqn:Hlt; [|simplify_eq; split; [done|lia]].
    destruct (dim ^ 2 - 1 <? 0); [done|].
    pose proof (draw_in_grid dim loc Hdim Hloc) as Hin.
    pose proof Hin as [Hr Hc]%elem_of_grid.
    pose proof Hg as [Hsh Hcells].
    destruct (Hcells _ _ Hin) as [Hv|Hv]; rewrite Hv in Hrun; simpl in Hrun.
    + rewrite (set_cell_upd dim) in Hrun by done. simpl in Hrun.
      destruct (planting_upd dim g (loc `div` dim) (loc `mod` dim)) as [Hg' Hc'];
        [done|done|unfold hazard; simpl; congruence|].
      apply (IH (upd g (loc `div` dim) (loc `mod` dim) Bomb) (planted + 1));
        [done..|lia|lia|done].
    + by apply (IH g planted).
Qed.

Lemma fresh_grid_planting dim :
  planting dim (fresh_grid dim) ∧ hazard_count dim (fresh_grid dim) = 0.
Proof.
  assert (shape dim (fresh_grid dim)) as Hsh.
  { unfold shape, fresh_grid. rewrite length_map, length_py_range.
    split; [f_equal; lia|]. apply Forall_forall. intros row Hrow.
    apply list_elem_of_fmap in Hrow as (? & -> & _).
    rewrite length_map, length_py_range. f_equal. lia. }
  assert (∀ r c, (r, c) ∈ grid dim → cell_at (fresh_grid dim) r c = Ret CNone) as Hcells.
  { intros r c [Hr Hc]%elem_of_grid.
    destruct (cell_at_cell dim (fresh_grid dim) r c) as (v & Hv & ->); [done..|].
    f_equal. unfold cell, fresh_grid in Hv.
    rewrite list_lookup_fmap in Hv.
    destruct (py_range 0 dim !! Z.to_nat r); simpl in Hv; [|done].
    rewrite list_lookup_fmap in Hv.
    by destruct (py_range 0 dim !! Z.to_nat c); simplify_eq/=. }
  split; [split; [done|by left; apply Hcells]|].
  unfold hazard_count, hazards.
  rewrite (filter_ext_in _ (λ _, False)).
  - by induction (grid_cells dim).
  - intros [r c] Hin%elem_of_grid_list. unfold hazard; simpl.
    rewrite Hcells by done. split; [done|tauto].
Qed.

Lemma adjacent_hazards_ext dim g g' row col :
  (∀ rc, rc ∈ grid dim → (hazard g rc ↔ hazard g' rc)) →
  adjacent_hazards dim g row col = adjacent_hazards dim g' row col.
Proof.
  intros Hiff. unfold adjacent_hazards. do 2 f_equal.
  apply filter_ext_in. intros rc Hrc%elem_of_grid_list.
  specialize (Hiff rc Hrc). tauto.
Qed.

Lemma hazard_count_ext dim g g' :
  (∀ rc, rc ∈ grid dim → (hazard g rc ↔ hazard g' rc)) →
  hazard_count dim g = hazard_count dim g'.
Proof.
  intros Hiff. unfold hazard_count, hazards. do 2 f_equal.
  apply filter_ext_in. intros rc Hrc%elem_of_grid_list. by apply Hiff.
Qed.

Lemma assign_values_to_board_flat dim g :
  assign_values_to_board dim g = foldM (assign_cell dim) (grid_cells dim) g.
Proof.
  unfold assign_values_to_board, grid_cells.
  by rewrite (foldM_nested (λ r g c, assign_cell dim g (r, c))).
Qed.

Lemma assign_cell_spec dim g r c :
  shape dim g → (r, c) ∈ grid dim →
  ∃ g', assign_cell dim g (r, c) = Ret g' ∧ shape dim g' ∧
    ∀ r' c', (r', c') ∈ grid dim →
      cell_at g' r' c' =
      if decide ((r', c') = (r, c) ∧ ¬ hazard g (r, c))
      then Ret (Num (adjacent_hazards dim g r c))
      else cell_at g r' c'.
Proof.
  intros Hsh Hg. pose proof Hg as [Hr Hc]%elem_of_grid.
  destruct (cell_at_cell dim g r c) as (v & _ & Hv); [done..|].
  unfold assign_cell. simpl. rewrite Hv. simpl.
  destruct (is_bomb v) eqn:Hb.
  - exists g. split_and!; [done..|]. intros r' c' _.
    rewrite decide_False; [done|]. intros [_ Hnh]. apply Hnh.
    unfold hazard; simpl. by destruct v.
  - rewrite (get_num_neighboring_bombs_spec dim) by done. simpl.
    rewrite (set_cell_upd dim) by done.
    eexists. split_and!; [done|by apply shape_upd|]. intros r' c' Hg'.
    rewrite (cell_at_upd dim) by done.
    case_decide as Heq.
    + rewrite decide_True; [done|]. split; [done|].
      unfold hazard; simpl. rewrite Hv. intros [= ->]. done.
    + rewrite decide_False; [done|]. tauto.
Qed.

Lemma assign_loop dim g0 xs : ∀ g,
  shape dim g → (∀ rc, rc ∈ grid dim → (hazard g rc ↔ hazard g0 rc)) →
  (∀ rc, rc ∈ xs → rc ∈ grid dim) →
  ∃ g', foldM (assign_cell dim) xs g = Ret g' ∧ shape dim g' ∧
    (∀ rc, rc ∈ grid dim → (hazard g' rc ↔ hazard g0 rc)) ∧
    (∀ r c, (r, c) ∈ grid dim → (r, c) ∈ xs → ¬ hazard g0 (r, c) →
       cell_at g' r c = Ret (Num (adjacent_hazards dim g0 r c))) ∧
    (∀ r c, (r, c) ∈ grid dim → (r, c) ∉ xs → cell_at g' r c = cell_at g r c).
Proof.
  induction xs as [|[r c] xs IH]; intros g Hsh Hhaz Hxs.
  { exists g. split_and!; [done..| |done]. by intros r c _ ?%elem_of_nil. }
  destruct (assign_cell_spec dim g r c) as (g1 & Hg1 & Hsh1 & Hcells1);
    [done|apply Hxs; left|].
  assert (∀ rc, rc ∈ grid dim → (hazard g1 rc ↔ hazard g rc)) as Hhaz1.
  { intros [r' c'] Hrc. unfold hazard at 1; simpl. rewrite Hcells1 by done.
    case_decide as Heq; [|done]. destruct Heq as [[= -> ->] Hnh].
    split; [done|tauto]. }
  destruct (IH g1) as (g' & Hrun & Hsh' & Hhaz' & Hdone & Hrest).
  { done. }
  { intros rc Hrc. rewrite Hhaz1 by done. by apply Hhaz. }
  { intros rc Hrc. apply Hxs. by right. }
  exists g'. cbn [foldM]. rewrite Hg1. simpl. split_and!; [done..| |].
  - intros r' c' Hg' Hin Hnh.
    destruct (decide ((r', c') ∈ xs)) as [Hin'|Hnin]; [by apply Hdone|].
    apply elem_of_cons in Hin as [[= -> ->]|?]; [|done].
    rewrite Hrest, Hcells1 by done.
    rewrite decide_True.
    + f_equal. f_equal. by apply adjacent_hazards_ext.
    + split; [done|]. by rewrite Hhaz.
  - intros r' c' Hg' Hnin. apply not_elem_of_cons in Hnin as [Hne Hnin].
    rewrite Hrest, Hcells1 by done. rewrite decide_False; [done|tauto].
Qed.

Lemma assign_values_to_board_spec dim g :
  shape dim g →
  ∃ g', assign_values_to_board dim g = Ret g' ∧ shape dim g' ∧
    (∀ rc, rc ∈ grid dim → (hazard g' rc ↔ hazard g rc)) ∧
    (∀ r c, (r, c) ∈ grid dim → ¬ hazard g' (r, c) →
       cell_at g' r c = Ret (Num (adjacent_hazards dim g' r c))).
Proof.
  intros Hsh. rewrite assign_values_to_board_flat.
  destruct (assign_loop dim g (grid_cells dim) g) as (g' & Hrun & Hsh' & Hhaz & Hdone & _);
    [done|done|by intros rc ?%elem_of_grid_list|].
  exists g'. split_and!; [done..|]. intros r c Hg Hnh.
  rewrite Hdone; [|done|by apply elem_of_grid_list|by rewrite <- Hhaz].
  do 2 f_equal. symmetry. by apply adjacent_hazards_ext.
Qed.

Lemma plant_bombs_done dim nb draws g planted :
  nb ≤ planted → plant_bombs dim nb draws g planted = Ret g.
Proof.
  intros Hle. destruct draws; simpl; by rewrite (proj2 (Z.ltb_ge _ _) Hle).
Qed.

(** Whatever was drawn so far, the planting loop can still finish. *)
Lemma plant_bombs_exists dim nb : 1 ≤ dim → nb ≤ dim ^ 2 →
  ∀ (k : nat) g planted,
    planting dim g → hazard_count dim g = planted → Z.to_nat (nb - planted) = k →
    ∃ draws g', valid_draws dim draws ∧ plant_bombs dim nb draws g planted = Ret g'.
Proof.
  intros Hdim Hnb. induction k as [|k IH]; intros g planted Hg Hcount Hk.
  { exists [], g. split; [constructor|]. apply plant_bombs_done. lia. }
  destruct (filter_short_witness (hazard g) (grid_cells dim)) as ([r c] & Hin & Hsafe).
  { unfold hazard_count, hazards in Hcount. rewrite length_grid_cells. nia. }
  apply elem_of_grid_list in Hin. pose proof Hin as [Hr Hc]%elem_of_grid.
  destruct (planting_upd dim g r c) as [Hg' Hc']; [done..|].
  destruct (IH (upd g r c Bomb) (planted + 1)) as (draws & g' & Hdraws & Hrun);
    [done|lia|lia|].
  assert ((r * dim + c) `div` dim = r) as Hdiv.
  { rewrite Z.div_add_l, Z.div_small by lia. lia. }
  assert ((r * dim + c) `mod` dim = c) as Hmod.
  { rewrite Z.add_comm, Z.mod_add, Z.mod_small by lia. lia. }
  exists ((r * dim + c) :: draws), g'. split.
  { constructor; [nia|done]. }
  cbn [plant_bombs]. rewrite (proj2 (Z.ltb_lt planted nb)) by lia.
  rewrite (proj2 (Z.ltb_ge (dim ^ 2 - 1) 0)) by nia.
  rewrite Hdiv, Hmod. destruct Hg as [Hsh Hcells].
  destruct (Hcells r c Hin) as [Hv|Hv]; [|done].
  rewrite Hv. simpl. rewrite (set_cell_upd dim) by done. done.
Qed.

Lemma plant_bombs_extend dim nb : 1 ≤ dim → nb ≤ dim ^ 2 →
  ∀ draws g planted,
    valid_draws dim draws → planting dim g → hazard_count dim g = planted →
    ∃ more g', valid_draws dim more ∧
               plant_bombs dim nb (draws ++ more) g planted = Ret g'.
Proof.
  intros Hdim Hnb. induction draws as [|loc draws IH]; intros g planted Hdraws Hg Hcount.
  { by eapply (plant_bombs_exists dim nb Hdim Hnb _ g planted). }
  destruct (decide (nb ≤ planted)) as [Hle|Hlt].
  { exists [], g. split; [constructor|]. by apply plant_bombs_done. }
  apply Forall_cons in Hdraws as [Hloc Hdraws].
  pose proof (draw_in_grid dim loc Hdim Hloc) as Hin.
  pose proof Hin as [Hr Hc]%elem_of_grid.
  pose proof Hg as [Hsh Hcells].
  cbn [app plant_bombs]. rewrite (proj2 (Z.ltb_lt planted nb)) by lia.
  rewrite (proj2 (Z.ltb_ge (dim ^ 2 - 1) 0)) by nia.
  destruct (Hcells _ _ Hin) as [Hv|Hv]; rewrite Hv; simpl.
  - rewrite (set_cell_upd dim) by done. simpl.
    destruct (planting_upd dim g (loc `div` dim) (loc `mod` dim)) as [Hg' Hc'];
      [done|done|unfold hazard; simpl; congruence|].
    apply IH; [done..|lia].
  - by apply IH.
Qed.

(** What [__init__] establishes. *)
Lemma Board_init_spec dim nb draws b :
  nb ≤ 0 ∨ (1 ≤ dim ∧ valid_draws dim draws) →
  Board_init dim nb draws = Ret b →
  dimension_size b = dim ∧ num_bombs b = nb ∧ dug b = ∅ ∧ board_ok b ∧
  hazard_count dim (board b) = Z.max 0 nb.
Proof.
  intros Hcfg Hrun. unfold Board_init, make_new_board in Hrun.
  destruct (plant_bombs dim nb draws (fresh_grid dim) 0) as [g| |] eqn:Hplant;
    [|done..]. simpl in Hrun.
  destruct (fresh_grid_planting dim) as [Hfresh Hzero].
  assert (planting dim g ∧ hazard_count dim g = Z.max 0 nb) as [[Hsh _] Hcount].
  { destruct (decide (nb ≤ 0)) as [Hle|Hlt].
    - rewrite plant_bombs_done in Hplant by done. simplify_eq.
      split; [done|lia].
    - destruct Hcfg as [?|[Hdim Hdraws]]; [lia|].
      destruct (plant_bombs_spec dim nb draws (fresh_grid dim) 0 g); [done..|lia|done|].
      split; [done|lia]. }
  destruct (assign_values_to_board_spec dim g Hsh) as (g' & Hg' & Hsh' & Hhaz & Hnum).
  rewrite Hg' in Hrun. simpl in Hrun. simplify_eq. simpl.
  split_and!; [done..| |].
  - split; simpl; [done|]. intros r c v Hg Hv.
    destruct (decide (hazard g' (r, c))) as [Hh|Hnh].
    + left. unfold hazard in Hh. simpl in Hh. congruence.
    + right. rewrite Hnum in Hv by done. congruence.
  - rewrite <- Hcount. by apply hazard_count_ext.
Qed.

Lemma Board_init_returns dim nb draws :
  1 ≤ dim → nb ≤ dim ^ 2 → valid_draws dim draws →
  ∃ more b, valid_draws dim more ∧ Board_init dim nb (draws ++ more) = Ret b.
Proof.
  intros Hdim Hnb Hdraws.
  destruct (fresh_grid_planting dim) as [Hfresh Hzero].
  destruct (plant_bombs_extend dim nb Hdim Hnb draws (fresh_grid dim) 0)
    as (more & g & Hmore & Hplant); [done..|].
  assert (shape dim g) as Hsh.
  { destruct (decide (nb ≤ 0)) as [Hle|Hlt].
    - rewrite plant_bombs_done in Hplant by done. simplify_eq. apply Hfresh.
    - destruct (plant_bombs_spec dim nb (draws ++ more) (fresh_grid dim) 0 g)
        as [[? _] _]; [done|by apply Forall_app|done|done|lia|done|done]. }
  destruct (assign_values_to_board_spec dim g Hsh) as (g' & Hg' & _).
  exists more. eexists. split; [done|].
  unfold Board_init, make_new_board. rewrite Hplant. simpl. rewrite Hg'. done.
Qed.

(** ** More fuel changes nothing *)

Lemma dig_fuel_irrel fuel : ∀ b row col fuel',
  (dig fuel b row col).2 ≠ OutOfFuel → (fuel ≤ fuel')%nat →
  dig fuel' b row col = dig fuel b row col.
Proof.
  induction fuel as [|n IH]; intros b row col m Hrun Hle; [done|].
  destruct m as [|m]; [lia|]. rewrite !dig_S in *. cbv zeta in *.
  destruct (cell_at _ _ _) as [[| |v]|e|]; try done.
  destruct (0 <? v); [done|].
  rewrite (for_state_same (visit n) (visit m)); [done| |].
  - by destruct (for_state (visit n) _ _) as [s' [?|?|]].
  - intros x s Hx. unfold visit in *. case_bool_decide; [done|].
    rewrite (IH s x.1 x.2 m); [done| |lia].
    by destruct (dig n s x.1 x.2) as [s' [?|?|]].
Qed.

(** ** A dug cell of a bomb-free board floods the whole grid *)

Lemma closed_flood b r0 c0 :
  closed b →
  (∀ rc, rc ∈ grid (dimension_size b) → cascades (board b) rc) →
  (r0, c0) ∈ grid (dimension_size b) → (r0, c0) ∈ dug b →
  ∀ rc, rc ∈ grid (dimension_size b) → rc ∈ dug b.
Proof.
  intros Hcl Hzero Hg0 Hd0.
  assert (∀ (k : nat) r c, (r, c) ∈ grid (dimension_size b) →
            Z.abs (r - r0) + Z.abs (c - c0) ≤ Z.of_nat k → (r, c) ∈ dug b) as Hk.
  { induction k as [|k IH]; intros r c Hg Hdist.
    { assert (r = r0 ∧ c = c0) as [-> ->] by lia. done. }
    destruct (decide ((r, c) = (r0, c0))) as [[= -> ->]|Hne]; [done|].
    set (r' := r - Z.sgn (r - r0)). set (c' := c - Z.sgn (c - c0)).
    apply elem_of_grid in Hg0 as [Hr0 Hc0]. pose proof Hg as [Hr Hc]%elem_of_grid.
    assert ((r', c') ∈ grid (dimension_size b)) as Hg'.
    { apply elem_of_grid. unfold r', c'. lia. }
    assert ((r', c') ∈ dug b) as Hd'.
    { apply IH; [done|]. unfold r', c'.
      assert (r ≠ r0 ∨ c ≠ c0) by (destruct (decide (r = r0)); [right|left]; congruence).
      lia. }
    apply (Hcl (r', c')); [done|set_solver|done|by apply Hzero|].
    apply elem_of_neighbors. simpl. unfold r', c'. lia. }
  intros [r c] Hg.
  apply (Hk (Z.to_nat (Z.abs (r - r0) + Z.abs (c - c0)))); [done|lia].
Qed.

Lemma no_hazards dim g rc :
  hazard_count dim g = 0 → rc ∈ grid dim → ¬ hazard g rc.
Proof.
  unfold hazard_count, hazards. intros Hz Hg Hh.
  assert (filter (hazard g) (grid_cells dim) = []) as Hnil.
  { destruct (filter _ _); [done|simpl in Hz; lia]. }
  eapply filter_nil_not_elem_of; [done..|]. by apply elem_of_grid_list.
Qed.

Lemma no_hazards_zero dim g row col :
  hazard_count dim g = 0 → adjacent_hazards dim g row col = 0.
Proof.
  intros Hz. unfold adjacent_hazards.
  rewrite (filter_ext_in _ (λ _, False)).
  - by induction (grid_cells dim).
  - intros rc Hin%elem_of_grid_list. pose proof (no_hazards dim g rc Hz Hin).
    tauto.
Qed.

Lemma Board_init_no_bombs dim nb draws :
  nb ≤ 0 → ∃ b, Board_init dim nb draws = Ret b.
Proof.
  intros Hnb. unfold Board_init, make_new_board.
  rewrite plant_bombs_done by done. simpl.
  destruct (fresh_grid_planting dim) as [[Hsh _] _].
  destruct (assign_values_to_board_spec dim _ Hsh) as (g' & -> & _).
  by eexists.
Qed.

Lemma dug_add_dug b rc : rc ∈ dug b → dug_add b rc = b.
Proof.
  intros Hin. destruct b as [d n g s]. unfold dug_add. simpl in *.
  f_equal. set_solver.
Qed.

Lemma dig_board_ok fuel b row col :
  board_ok b → board_ok (dig fuel b row col).1.
Proof. apply board_ok_extends, dig_extends. Qed.

(** ** The win test of [play] *)

Lemma elem_of_safe_cells dim g rc :
  rc ∈ safe_cells dim g ↔ rc ∈ grid dim ∧ ¬ hazard g rc.
Proof.
  unfold safe_cells. rewrite elem_of_list_to_set, list_elem_of_filter.
  rewrite elem_of_grid_list. tauto.
Qed.

Lemma size_safe_cells dim g :
  0 ≤ dim → Z.of_nat (size (safe_cells dim g)) = dim ^ 2 - hazard_count dim g.
Proof.
  intros Hdim. unfold safe_cells, hazard_count, hazards.
  rewrite size_list_to_set by apply NoDup_filter, NoDup_grid_cells.
  pose proof (filter_app_complement (hazard g) (grid_cells dim)) as Hperm.
  apply Permutation_length in Hperm.
  rewrite length_app, length_grid_cells in Hperm. nia.
Qed.

(** With only cells of the grid in [dug] and no bomb among them, the loop
    stops exactly when every cell without a bomb is dug. *)
Lemma win_test_in_grid b :
  0 ≤ dimension_size b →
  hazard_count (dimension_size b) (board b) = num_bombs b →
  dug b ⊆ grid (dimension_size b) →
  (∀ rc, rc ∈ dug b → ¬ hazard (board b) rc) →
  win_test b (num_bombs b) = true ↔
  dug b = safe_cells (dimension_size b) (board b).
Proof.
  intros Hdim Hcount Hgrid Hsafe. unfold win_test.
  pose proof (size_safe_cells _ (board b) Hdim) as Hsize.
  assert (dug b ⊆ safe_cells (dimension_size b) (board b)) as Hsub.
  { intros rc Hrc. apply elem_of_safe_cells. split; [by apply Hgrid|by apply Hsafe]. }
  rewrite negb_true_iff, Z.ltb_ge. split.
  - intros Hle. apply set_subseteq_size_eq; [done|]. lia.
  - intros ->. lia.
Qed.

Lemma fresh_grid_empty dim : dim ≤ 0 → fresh_grid dim = [].
Proof.
  intros Hdim. unfold fresh_grid, py_range, seqZ.
  by assert (Z.to_nat (dim - 0) = 0%nat) as -> by lia.
Qed.

Lemma cell_at_nil r c : cell_at [] r c = Raise IndexError.
Proof.
  unfold cell_at, py_index, py_norm. simpl.
  by rewrite !bool_decide_eq_false_2 by lia.
Qed.

Lemma plant_bombs_no_raise dim nb draws : ∀ g planted e,
  1 ≤ dim → valid_draws dim draws → planting dim g →
  plant_bombs dim nb draws g planted ≠ Raise e.
Proof.
  induction draws as [|loc draws IH]; intros g planted e Hdim Hdraws Hg.
  - simpl. destruct (planted <? nb); [|done].
    rewrite (proj2 (Z.ltb_ge (dim ^ 2 - 1) 0)) by nia. done.
  - apply Forall_cons in Hdraws as [Hloc Hdraws].
    cbn [plant_bombs]. destruct (planted <? nb); [|done].
    rewrite (proj2 (Z.ltb_ge (dim ^ 2 - 1) 0)) by nia.
    pose proof (draw_in_grid dim loc Hdim Hloc) as Hin.
    pose proof Hin as [Hr Hc]%elem_of_grid.
    pose proof Hg as [Hsh Hcells].
    destruct (Hcells _ _ Hin) as [Hv|Hv]; rewrite Hv; simpl.
    + rewrite (set_cell_upd dim) by done. simpl. apply IH; [done..|].
      apply planting_upd; [done..|]. unfold hazard; simpl; congruence.
    + by apply IH.
Qed.

Lemma corner_board_init : Board_init 2 1 [0] = Ret corner_board.
Proof. vm_compute. reflexivity. Qed.

Lemma valid_draws_corner : valid_draws 2 [0].
Proof. repeat constructor; lia. Qed.

Lemma corner_board_ok : board_ok corner_board.
Proof.
  eapply (Board_init_spec 2 1 [0]); [|apply corner_board_init].
  right. split; [lia|apply valid_draws_corner].
Qed.

Lemma cascade_board_init : Board_init 3 1 [8] = Ret cascade_board.
Proof. vm_compute. reflexivity. Qed.

Lemma valid_draws_cascade : valid_draws 3 [8].
Proof. repeat constructor; lia. Qed.

Lemma cascade_board_ok : board_ok cascade_board.
Proof.
  eapply (Board_init_spec 3 1 [8]); [|apply cascade_board_init].
  right. split; [lia|apply valid_draws_cascade].
Qed.

(** ** The claims *)

(** C1 (the code departs from it): digging outside the grid is not
    rejected.  On the 2 by 2 board with its bomb at (0, 0), [dig(5, 5)]
    records (5, 5) in [dug] before the index error, so the number of dug
    cells grows; [dig(-1, -1)] records (-1, -1) and reads the last cell of
    the last row; and [play], after its bounds test, digs all the same and
    stops on the exception. *)
Theorem dig_out_of_bounds_mutates :
  Board_init 2 1 [0] = Ret corner_board ∧
  dig 1 corner_board 5 5 = (dug_add corner_board (5, 5), Raise IndexError) ∧
  size (dug corner_board) = 0%nat ∧
  size (dug (dug_add corner_board (5, 5))) = 1%nat ∧
  dig 1 corner_board (-1) (-1) = (dug_add corner_board (-1, -1), Ret true) ∧
  ∀ depth : nat,
    play (S depth) 2 1 [0] [(5, 5)]
    = Ret (dug_add corner_board (5, 5), Crashed IndexError).
Proof. repeat split; try intros depth; vm_compute; reflexivity. Qed.

(** C2, as stated, fails: digging the bomb at (0, 0) a second time answers
    [False] again, the very answer of the first dig.  However the answers
    of [dig] are read as outcomes, if the first dig reads as [HitHazard] the
    second does not read as [AlreadyRevealed].  And [dig] itself does not
    look whether its target is dug: were (0, 0) of the 3 by 3 board in
    [dug] without its neighbours (no call of [dig] leaves such a board),
    digging it would cascade over seven more cells. *)
Lemma redig_hazard_reports_hazard :
  dig 1 corner_board 0 0 = (dug_add corner_board (0, 0), Ret false) ∧
  (0, 0) ∈ dug (dug_add corner_board (0, 0)) ∧
  dig 1 (dug_add corner_board (0, 0)) 0 0
    = (dug_add corner_board (0, 0), Ret false) ∧
  (∀ read : result bool → RevealOutcome,
     read (dig 1 corner_board 0 0).2 = HitHazard →
     read (dig 1 (dug_add corner_board (0, 0)) 0 0).2 ≠ AlreadyRevealed) ∧
  size (dug (dug_add cascade_board (0, 0))) = 1%nat ∧
  size (dug (dig 10 (dug_add cascade_board (0, 0)) 0 0).1) = 8%nat.
Proof.
  assert (dig 1 (dug_add corner_board (0, 0)) 0 0
          = (dug_add corner_board (0, 0), Ret false)) as Hsecond by by vm_compute.
  split_and!; [by vm_compute| |done| |by vm_compute..].
  - simpl. set_solver.
  - intros read. rewrite Hsecond. simpl. intros ->. done.
Qed.

(** C2, amended: on a cascade-closed board (every board reached from
    [__init__] by calls of [dig] is one), digging a dug cell of the grid
    again changes nothing, cascades nowhere, and answers as the first dig
    did: [False] on a bomb, [True] otherwise. *)
Theorem redig_no_change (b : Board) (row col : Z) (fuel : nat) :
  board_ok b → closed b →
  (row, col) ∈ grid (dimension_size b) → (row, col) ∈ dug b →
  ∃ v, cell_at (board b) row col = Ret v ∧
       dig (S fuel) b row col = (b, Ret (negb (is_bomb v))).
Proof.
  intros Hok Hcl Hg Hd.
  destruct (board_ok_cell b row col) as (v & Hv & Hcase); [done..|].
  exists v. split; [done|]. rewrite dig_S. cbv zeta.
  rewrite dug_add_dug by done. rewrite Hv.
  destruct Hcase as [->| ->]; [done|].
  destruct (0 <? _) eqn:Hn; [done|].
  rewrite for_state_visit_skip; [done|].
  intros rc Hrc. apply (Hcl (row, col)); [done|set_solver|done| |done].
  by eexists.
Qed.

Lemma redig_no_change_witness :
  let b := (dig 10 cascade_board 0 0).1 in
  size (dug b) = 8%nat ∧
  ∃ v, cell_at (board b) 0 0 = Ret v ∧ dig 1 b 0 0 = (b, Ret (negb (is_bomb v))).
Proof.
  split; [vm_compute; reflexivity|].
  apply (redig_no_change (dig 10 cascade_board 0 0).1 0 0 0).
  - apply dig_board_ok, cascade_board_ok.
  - apply dig_closed; [apply cascade_board_ok|vm_compute; lia|by apply closed_initial].
  - rewrite dig_dim. apply elem_of_grid. simpl. lia.
  - apply dig_dug_start.
Defined.

(** C3, as stated, fails: a negative bomb count, a dimension of 0 without
    bombs, and as many bombs as cells all yield a board. *)
Lemma Board_init_accepts_invalid :
  Board_init 2 (-1) [] =
    Ret {| dimension_size := 2; num_bombs := -1;
           board := [[Num 0; Num 0]; [Num 0; Num 0]]; dug := ∅ |} ∧
  Board_init 0 0 [] =
    Ret {| dimension_size := 0; num_bombs := 0; board := []; dug := ∅ |} ∧
  Board_init 1 1 [0] =
    Ret {| dimension_size := 1; num_bombs := 1; board := [[Bomb]]; dug := ∅ |}.
Proof. split_and!; vm_compute; reflexivity. Qed.

(** C3, amended: [__init__] checks nothing.  It raises only when bombs are
    asked for on a grid of dimension below 1 ([ValueError] from [randint]
    at dimension 0, [IndexError] below 0), and it never returns when more
    bombs are asked for than there are cells, whatever is drawn.  Without
    bombs to plant (count 0 or negative) it returns a board with no bomb
    for any dimension, and with as many bombs as cells it can still return
    a board. *)
Theorem Board_init_unvalidated (dim nb : Z) (draws : list Z) :
  (nb ≤ 0 →
     ∃ b, Board_init dim nb draws = Ret b ∧ dug b = ∅ ∧
          hazard_count dim (board b) = 0) ∧
  (dim = 0 → 0 < nb → Board_init dim nb draws = Raise ValueError) ∧
  (dim < 0 → 0 < nb → ∀ loc,
     Board_init dim nb (loc :: draws) = Raise IndexError) ∧
  (1 ≤ dim → dim ^ 2 < nb → valid_draws dim draws →
     Board_init dim nb draws = OutOfFuel) ∧
  (1 ≤ dim → nb = dim ^ 2 → valid_draws dim draws →
     ∃ more b, valid_draws dim more ∧ Board_init dim nb (draws ++ more) = Ret b).
Proof.
  split_and!.
  - intros Hnb. destruct (Board_init_no_bombs dim nb draws Hnb) as [b Hb].
    exists b. destruct (Board_init_spec dim nb draws b) as (_ & _ & Hd & _ & Hc);
      [by left|done|]. split_and!; [done..|lia].
  - intros -> Hnb. unfold Board_init, make_new_board.
    destruct draws; simpl; by rewrite (proj2 (Z.ltb_lt 0 nb)).
  - intros Hdim Hnb loc. unfold Board_init, make_new_board.
    rewrite fresh_grid_empty by lia.
    cbn [plant_bombs]. rewrite (proj2 (Z.ltb_lt 0 nb)) by done.
    rewrite (proj2 (Z.ltb_ge (dim ^ 2 - 1) 0)) by nia.
    by rewrite cell_at_nil.
  - intros Hdim Hnb Hdraws.
    destruct (Board_init dim nb draws) as [b|e|] eqn:Hrun; [| |done].
    + destruct (Board_init_spec dim nb draws b) as (_ & _ & _ & _ & Hc);
        [by right|done|].
      pose proof (hazard_count_le dim (board b)). lia.
    + unfold Board_init, make_new_board in Hrun.
      destruct (plant_bombs dim nb draws (fresh_grid dim) 0) as [g|e'|] eqn:Hplant;
        simpl in Hrun; [| |done].
      * destruct (plant_bombs_spec dim nb draws (fresh_grid dim) 0 g)
          as [[Hsh _] _]; [done|done|apply fresh_grid_planting
                          |apply fresh_grid_planting|lia|done|].
        destruct (assign_values_to_board_spec dim g Hsh) as (g' & Hg' & _).
        by rewrite Hg' in Hrun.
      * exfalso. eapply plant_bombs_no_raise; [done|done| |done].
        apply fresh_grid_planting.
  - intros Hdim -> Hdraws. by apply Board_init_returns; [|lia|].
Qed.

Lemma Board_init_unvalidated_witness :
  (∃ b, Board_init 2 (-1) [] = Ret b ∧ dug b = ∅ ∧ hazard_count 2 (board b) = 0) ∧
  Board_init 0 1 [] = Raise ValueError ∧
  Board_init (-2) 1 [0] = Raise IndexError ∧
  Board_init 1 2 [0; 0] = OutOfFuel ∧
  (∃ more b, valid_draws 1 more ∧ Board_init 1 1 ([] ++ more) = Ret b).
Proof.
  pose proof (Board_init_unvalidated 2 (-1) []) as (H1 & _).
  pose proof (Board_init_unvalidated 0 1 []) as (_ & H2 & _).
  pose proof (Board_init_unvalidated (-2) 1 []) as (_ & _ & H3 & _).
  pose proof (Board_init_unvalidated 1 2 [0; 0]) as (_ & _ & _ & H4 & _).
  pose proof (Board_init_unvalidated 1 1 []) as (_ & _ & _ & _ & H5).
  split_and!.
  - apply H1. lia.
  - apply H2; [reflexivity|lia].
  - apply H3; lia.
  - apply H4; [lia|lia|]. repeat constructor; lia.
  - apply H5; [lia|reflexivity|constructor].
Defined.

(** C4: on a constructed board, every cell of the grid without a bomb holds
    exactly the number of bombs among the cells of the grid adjacent to
    it. *)
Theorem adjacent_counts_exact (dim nb : Z) (draws : list Z) (b : Board) (r c : Z) :
  1 ≤ dim → valid_draws dim draws → Board_init dim nb draws = Ret b →
  (r, c) ∈ grid dim → ¬ hazard (board b) (r, c) →
  cell_at (board b) r c = Ret (Num (adjacent_hazards dim (board b) r c)).
Proof.
  intros Hdim Hdraws Hrun Hg Hnh.
  destruct (Board_init_spec dim nb draws b) as (Hd & _ & _ & Hok & _);
    [by right|done|]. rewrite <- Hd in *.
  destruct (board_ok_cell b r c Hok Hg) as (v & Hv & [->| ->]); [|done].
  by destruct Hnh.
Qed.

Lemma adjacent_counts_exact_witness :
  cell_at (board cascade_board) 1 1
  = Ret (Num (adjacent_hazards 3 (board cascade_board) 1 1)) ∧
  adjacent_hazards 3 (board cascade_board) 1 1 = 1.
Proof.
  split; [|vm_compute; reflexivity].
  apply (adjacent_counts_exact 3 1 [8] cascade_board 1 1).
  - lia.
  - repeat constructor; lia.
  - vm_compute; reflexivity.
  - apply elem_of_grid; lia.
  - unfold hazard. vm_compute. discriminate.
Defined.

(** C5, counterexample: the cascade is a recursion, one call deep for each
    cell of the chain it follows, and the interpreter bounds the depth of
    calls (1000 by default).  On the 32 by 32 board without bombs the dig
    at [(0, 0)] nests deeper than that: with a depth of 1000 or less it ends
    in [RecursionError], at depth 1000 with 1000 of the 1024 cells dug, and
    [play] stops on that exception. *)
Lemma deep_cascade_exceeds_depth :
  Board_init 32 0 [] = Ret wide_board ∧
  (0, 0) ∈ grid 32 ∧
  (∀ depth : nat, (depth ≤ 1000)%nat → (dig depth wide_board 0 0).2 = OutOfFuel) ∧
  size (dug (dig 1000 wide_board 0 0).1) = 1000%nat ∧
  play 1000 32 0 [] [(0, 0)] = Ret ((dig 1000 wide_board 0 0).1, CrashedRecursion).
Proof.
  assert ((dig 1000 wide_board 0 0).2 = OutOfFuel) as Hdeep by (vm_compute; reflexivity).
  split_and!.
  - vm_compute. reflexivity.
  - apply elem_of_grid. lia.
  - intros depth Hle.
    destruct ((dig depth wide_board 0 0).2) as [x|e|] eqn:Hrun; [exfalso..|reflexivity].
    all: assert ((dig depth wide_board 0 0).2 ≠ OutOfFuel) as Hne
           by (rewrite Hrun; discriminate).
    all: rewrite (dig_fuel_irrel depth wide_board 0 0 1000 Hne Hle), Hrun in Hdeep.
    all: discriminate Hdeep.
  - vm_compute. reflexivity.
  - vm_compute. reflexivity.
Qed.

(** C5, amended: on a board of dimension N >= 1 built without bombs, one
    dig at any cell of the grid, given a recursion depth above N * N,
    answers [True] and leaves all N * N cells dug. *)
Theorem dig_reveals_whole_board (N : Z) (draws : list Z) (row col : Z)
    (depth : nat) :
  1 ≤ N → (row, col) ∈ grid N → N ^ 2 < Z.of_nat depth →
  ∃ b, Board_init N 0 draws = Ret b ∧ dug b = ∅ ∧
       (dig depth b row col).2 = Ret true ∧
       dug (dig depth b row col).1 = grid N ∧
       Z.of_nat (size (dug (dig depth b row col).1)) = N ^ 2.
Proof.
  intros HN Hg Hdepth. destruct (Board_init_no_bombs N 0 draws) as [b Hb]; [done|].
  destruct (Board_init_spec N 0 draws b) as (Hd & _ & Hdug & Hok & Hc);
    [by left|done|].
  exists b. split; [done|]. split; [done|]. clear Hb. rewrite <- Hd in *.
  assert ((undug b < depth)%nat) as Hfuel.
  { pose proof (undug_le_grid b). nia. }
  assert (∀ rc, rc ∈ grid (dimension_size b) → cascades (board b) rc) as Hzero.
  { intros [r c] Hrc. destruct (board_ok_cell b r c Hok Hrc) as (v & Hv & [->| ->]).
    - by destruct (no_hazards _ (board b) (r, c) Hc Hrc).
    - exists 0. simpl. by rewrite Hv, (no_hazards_zero _ _ r c Hc). }
  assert ((undug (dug_add b (row, col)) < depth)%nat) as Hfuel'.
  { pose proof (undug_dug_add_le b (row, col)). lia. }
  destruct (dig_in_grid depth b row col Hok Hg Hfuel') as (v & Hv & Hres).
  destruct (Hzero (row, col) Hg) as (n & Hn & _). simpl in Hn.
  rewrite Hv in Hn. simplify_eq. simpl in Hres.
  pose proof (dig_closed depth b row col Hok Hfuel (closed_initial b Hdug)) as Hcl.
  pose proof (dig_extends depth b row col) as (Hd' & _ & Hb' & _).
  pose proof (dig_new_in_grid depth b row col) as Hnew.
  assert (dug (dig depth b row col).1 = grid (dimension_size b)) as Hall.
  { apply set_eq. intros rc. split.
    - intros Hrc. destruct (Hnew rc Hrc) as [Hrc'|[->|?]]; [|done..].
      rewrite Hdug in Hrc'. set_solver.
    - rewrite <- Hd'. apply (closed_flood _ row col); [done| |by rewrite Hd'|].
      + intros rc' Hrc'. rewrite Hb'. apply Hzero. by rewrite <- Hd'.
      + destruct depth; [lia|]. apply dig_dug_start. }
  split_and!; [done..|]. rewrite Hall, size_grid. nia.
Qed.

Lemma dig_reveals_whole_board_witness :
  let b := {| dimension_size := 3; num_bombs := 0;
              board := replicate 3 (replicate 3 (Num 0)); dug := ∅ |} in
  Board_init 3 0 [] = Ret b ∧ (1, 1) ∈ grid 3 ∧ 3 ^ 2 < Z.of_nat 10 ∧
  (dig 10 b 1 1).2 = Ret true ∧
  dug (dig 10 b 1 1).1 = grid 3 ∧
  Z.of_nat (size (dug (dig 10 b 1 1).1)) = 3 ^ 2.
Proof.
  intros b0. subst b0.
  assert ((1, 1) ∈ grid 3) as Hg by (apply elem_of_grid; lia).
  assert (3 ^ 2 < Z.of_nat 10) as Hd by reflexivity.
  destruct (dig_reveals_whole_board 3 [] 1 1 10 ltac:(lia) Hg Hd)
    as (b & Hb & _ & Hres).
  assert (Board_init 3 0 [] =
    Ret {| dimension_size := 3; num_bombs := 0;
           board := replicate 3 (replicate 3 (Num 0)); dug := ∅ |}) as Hinit
    by (vm_compute; reflexivity).
  rewrite Hinit in Hb. injection Hb as <-.
  exact (conj Hinit (conj Hg (conj Hd Hres))).
Defined.

(** C6: [dig] terminates on every board and at every coordinate.  Each
    recursive call digs a cell of the grid not yet in [dug], and [dug] only
    grows, so a recursion depth of one more than the number of undug cells
    of the grid is enough; any larger depth gives the same outcome. *)
Theorem dig_terminates (b : Board) (row col : Z) (k : nat) :
  (dig (S (undug b) + k) b row col).2 ≠ OutOfFuel ∧
  dig (S (undug b) + k) b row col = dig (S (undug b)) b row col ∧
  dug b ⊆ dug (dig (S (undug b) + k) b row col).1.
Proof.
  assert ((dig (S (undug b)) b row col).2 ≠ OutOfFuel) as Hrun.
  { apply dig_fuel_enough. pose proof (undug_dug_add_le b (row, col)). lia. }
  assert (dig (S (undug b) + k) b row col = dig (S (undug b)) b row col) as Heq.
  { apply dig_fuel_irrel; [done|lia]. }
  split_and!; [by rewrite Heq|done|].
  apply (dig_extends (S (undug b) + k) b row col).
Qed.

(** C7: for 1 <= dimension and 0 <= bombs < dimension squared, whatever
    has been drawn the planting loop can still finish, and every board it
    returns has exactly [num_bombs] bombs, at distinct cells of the grid,
    and nothing dug. *)
Theorem Board_init_hazards (dim nb : Z) (draws : list Z) :
  1 ≤ dim → 0 ≤ nb < dim ^ 2 → valid_draws dim draws →
  (∃ more b, valid_draws dim more ∧ Board_init dim nb (draws ++ more) = Ret b) ∧
  (∀ b, Board_init dim nb draws = Ret b →
     dimension_size b = dim ∧ num_bombs b = nb ∧
     Z.of_nat (length (hazards dim (board b))) = nb ∧
     NoDup (hazards dim (board b)) ∧
     (∀ rc, rc ∈ hazards dim (board b) ↔ rc ∈ grid dim ∧ hazard (board b) rc) ∧
     dug b = ∅).
Proof.
  intros Hdim Hnb Hdraws. split.
  - apply Board_init_returns; [done|lia|done].
  - intros b Hrun.
    destruct (Board_init_spec dim nb draws b) as (Hd & Hn & Hdug & _ & Hc);
      [by right|done|].
    split_and!; [done|done| | | |done].
    + unfold hazard_count in Hc. lia.
    + apply NoDup_filter, NoDup_grid_cells.
    + intros rc. unfold hazards. rewrite list_elem_of_filter, elem_of_grid_list.
      tauto.
Qed.

Lemma Board_init_hazards_witness :
  (∃ more b, valid_draws 3 more ∧ Board_init 3 2 ([8; 8; 0] ++ more) = Ret b) ∧
  (∀ b, Board_init 3 2 [8; 8; 0] = Ret b →
     dimension_size b = 3 ∧ num_bombs b = 2 ∧
     Z.of_nat (length (hazards 3 (board b))) = 2 ∧
     NoDup (hazards 3 (board b)) ∧
     (∀ rc, rc ∈ hazards 3 (board b) ↔ rc ∈ grid 3 ∧ hazard (board b) rc) ∧
     dug b = ∅) ∧
  ∃ b, Board_init 3 2 [8; 8; 0] = Ret b.
Proof.
  split_and!; [apply (Board_init_hazards 3 2 [8; 8; 0])
              |apply (Board_init_hazards 3 2 [8; 8; 0])|];
    try lia; try (repeat constructor; lia).
  eexists. vm_compute. reflexivity.
Defined.

(** C8 (the code departs from it): [play] counts the entries of [dug], and
    coordinates outside the grid, which it digs after its bounds test, are
    entries too.  With the bomb at (0, 0) of a 2 by 2 board, digging (1, 1),
    (-1, -1) and (-1, -2) makes three entries: [play] announces the win
    while (0, 1) and (1, 0), which hold no bomb, are not dug. *)
Theorem play_wins_with_cells_hidden :
  ∃ b, (∀ depth : nat,
          play (S depth) 2 1 [0] [(1, 1); (-1, -1); (-1, -2)] = Ret (b, Won)) ∧
       dug b = {[ (1, 1); (-1, -1); (-1, -2) ]} ∧
       cell_at (board b) 0 1 = Ret (Num 1) ∧ ((0, 1) ∉ dug b) ∧
       cell_at (board b) 1 0 = Ret (Num 1) ∧ ((1, 0) ∉ dug b).
Proof.
  exists (dug_add (dug_add (dug_add corner_board (1, 1)) (-1, -1)) (-1, -2)).
  split; [intros depth; vm_compute; reflexivity|]. simpl.
  split_and!; [set_solver|done|set_solver|done|set_solver].
Qed.

(** C9: digging a bomb of the grid that is not dug yet answers [False],
    adds that one cell to [dug] and changes nothing else. *)
Theorem dig_hazard (b : Board) (row col : Z) (fuel : nat) :
  (row, col) ∈ grid (dimension_size b) → hazard (board b) (row, col) →
  (row, col) ∉ dug b →
  ∃ b', dig (S fuel) b row col = (b', Ret false) ∧
        dug b' = {[ (row, col) ]} ∪ dug b ∧
        size (dug b') = S (size (dug b)) ∧
        (∀ rc, rc ≠ (row, col) → (rc ∈ dug b' ↔ rc ∈ dug b)) ∧
        board b' = board b ∧ dimension_size b' = dimension_size b ∧
        num_bombs b' = num_bombs b.
Proof.
  intros Hg Hh Hd. exists (dug_add b (row, col)).
  rewrite dig_S. cbv zeta. unfold hazard in Hh. simpl in *. rewrite Hh.
  split_and!; [done..| | |done|done|done].
  - rewrite size_union by set_solver. by rewrite size_singleton.
  - intros rc Hne. set_solver.
Qed.

Lemma dig_hazard_witness :
  ∃ b', dig 1 cascade_board 2 2 = (b', Ret false) ∧
        dug b' = {[ (2, 2) ]} ∪ dug cascade_board ∧
        size (dug b') = S (size (dug cascade_board)) ∧
        (∀ rc, rc ≠ (2, 2) → (rc ∈ dug b' ↔ rc ∈ dug cascade_board)) ∧
        board b' = board cascade_board ∧
        dimension_size b' = dimension_size cascade_board ∧
        num_bombs b' = num_bombs cascade_board.
Proof.
  apply (dig_hazard cascade_board 2 2 0).
  - apply elem_of_grid. simpl. lia.
  - vm_compute. reflexivity.
  - simpl. set_solver.
Defined.

(** C10: on a board as [__init__] leaves it, a dig at a cell of the grid
    answers; it answers [False] exactly when that cell holds a bomb; and
    when it does not, no cell the dig adds to [dug] holds a bomb. *)
Theorem cascade_avoids_hazards (b : Board) (row col : Z) (fuel : nat) :
  board_ok b → (row, col) ∈ grid (dimension_size b) → (undug b < fuel)%nat →
  (∃ r, (dig fuel b row col).2 = Ret r) ∧
  ((dig fuel b row col).2 = Ret false ↔ hazard (board b) (row, col)) ∧
  (¬ hazard (board b) (row, col) →
     ∀ rc, rc ∈ dug (dig fuel b row col).1 → rc ∉ dug b →
           rc ∈ grid (dimension_size b) ∧ ¬ hazard (board b) rc).
Proof.
  intros Hok Hg Hfuel.
  destruct (dig_in_grid fuel b row col) as (v & Hv & Hres); [done..| |].
  { pose proof (undug_dug_add_le b (row, col)). lia. }
  split_and!.
  - eauto.
  - rewrite Hres. unfold hazard. simpl. rewrite Hv.
    split; [|by intros [= ->]]. destruct v; simpl; intros [=]. done.
  - intros Hnh rc Hrc Hnew.
    by destruct (dig_safe fuel b row col Hok Hg Hnh rc Hrc).
Qed.

Lemma cascade_avoids_hazards_witness :
  (∃ r, (dig 10 cascade_board 0 0).2 = Ret r) ∧
  ((dig 10 cascade_board 0 0).2 = Ret false ↔ hazard (board cascade_board) (0, 0)) ∧
  (¬ hazard (board cascade_board) (0, 0) →
     ∀ rc, rc ∈ dug (dig 10 cascade_board 0 0).1 → rc ∉ dug cascade_board →
           rc ∈ grid (dimension_size cascade_board) ∧
           ¬ hazard (board cascade_board) rc).
Proof.
  apply (cascade_avoids_hazards cascade_board 0 0 10).
  - apply cascade_board_ok.
  - apply elem_of_grid. simpl. lia.
  - vm_compute. lia.
Defined.

(** ** Further properties of the board engine *)

Lemma length_pairs (xs ys : list Z) :
  length (x ← xs; y ← ys; [(x, y)]) = (length xs * length ys)%nat.
Proof.
  induction xs as [|x xs IH]; [done|]. rewrite bind_cons, length_app, IH.
  simpl. f_equal. clear. induction ys as [|y ys IHy]; [done|].
  rewrite bind_cons. simpl. by f_equal.
Qed.

Lemma length_near dim x : (length (near dim x) ≤ 3)%nat.
Proof. unfold near. rewrite length_py_range. lia. Qed.

Lemma length_near_outside dim x : ¬ (0 ≤ x < dim) → (length (near dim x) ≤ 2)%nat.
Proof. intros Hx. unfold near. rewrite length_py_range. lia. Qed.

Lemma adjacent_hazards_neighbors dim g row col :
  adjacent_hazards dim g row col =
  Z.of_nat (length (filter (λ rc, adjacent rc (row, col) ∧ hazard g rc)
                           (neighbors dim row col))).
Proof.
  unfold adjacent_hazards. f_equal.
  apply Permutation_length, NoDup_Permutation.
  - apply NoDup_filter, NoDup_grid_cells.
  - apply NoDup_filter, NoDup_neighbors.
  - intros [r c]. rewrite !list_elem_of_filter, elem_of_neighbors,
      elem_of_grid_cells. unfold adjacent. simpl. tauto.
Qed.

Lemma length_neighbors dim row col :
  length (neighbors dim row col) = (length (near dim row) * length (near dim col))%nat.
Proof. apply length_pairs. Qed.

Lemma adjacent_hazards_le_8 dim g row col : adjacent_hazards dim g row col ≤ 8.
Proof.
  rewrite adjacent_hazards_neighbors.
  pose proof (length_near dim row) as Hr. pose proof (length_near dim col) as Hc.
  pose proof (length_neighbors dim row col) as Hlen.
  set (k := length (filter _ _)).
  destruct (decide ((row, col) ∈ neighbors dim row col)) as [Hin|Hout].
  - assert (k < length (neighbors dim row col))%nat.
    { apply (length_filter_lt _ _ (row, col)); [done|]. by intros [[? _] _]. }
    pose proof (Nat.mul_le_mono _ _ _ _ Hr Hc). lia.
  - assert (k ≤ length (neighbors dim row col))%nat by apply length_filter.
    assert (¬ (0 ≤ row < dim) ∨ ¬ (0 ≤ col < dim)) as [Ho|Ho].
    { rewrite elem_of_neighbors in Hout. lia. }
    + pose proof (Nat.mul_le_mono _ _ _ _ (length_near_outside dim row Ho) Hc). lia.
    + pose proof (Nat.mul_le_mono _ _ _ _ Hr (length_near_outside dim col Ho)). lia.
Qed.

(** X1: [get_num_neighboring_bombs], on a square grid and for any row and
    column, raises nothing and returns a number between 0 and 8: the number
    of bombs among the cells of the grid adjacent to that position. *)
Theorem get_num_neighboring_bombs_range (dim : Z) (g : Grid) (row col : Z) :
  shape dim g →
  ∃ n, get_num_neighboring_bombs dim g row col = Ret n ∧ 0 ≤ n ≤ 8 ∧
       n = adjacent_hazards dim g row col.
Proof.
  intros Hsh. exists (adjacent_hazards dim g row col).
  split_and!; [by apply get_num_neighboring_bombs_spec| | |done].
  - unfold adjacent_hazards. lia.
  - apply adjacent_hazards_le_8.
Qed.

Lemma get_num_neighboring_bombs_range_witness :
  ∃ n, get_num_neighboring_bombs 3 (board cascade_board) 1 1 = Ret n ∧
       0 ≤ n ≤ 8 ∧ n = adjacent_hazards 3 (board cascade_board) 1 1.
Proof.
  apply (get_num_neighboring_bombs_range 3 (board cascade_board) 1 1).
  apply cascade_board_ok.
Defined.

(** X2: on a board as [__init__] leaves it, digging a cell of the grid
    that holds no bomb but has a bomb next to it answers [True] and adds
    that cell alone to [dug]: no cascade starts. *)
Theorem dig_numbered_cell (b : Board) (row col : Z) (fuel : nat) :
  board_ok b → (row, col) ∈ grid (dimension_size b) →
  ¬ hazard (board b) (row, col) →
  0 < adjacent_hazards (dimension_size b) (board b) row col →
  dig (S fuel) b row col = (dug_add b (row, col), Ret true).
Proof.
  intros Hok Hg Hnh Hpos.
  destruct (board_ok_cell b row col Hok Hg) as (v & Hv & [->| ->]).
  { by destruct Hnh. }
  rewrite dig_S. cbv zeta. change (board (dug_add b (row, col))) with (board b).
  rewrite Hv. by rewrite (proj2 (Z.ltb_lt _ _) Hpos).
Qed.

Lemma dig_numbered_cell_witness :
  dig 1 cascade_board 1 1 = (dug_add cascade_board (1, 1), Ret true).
Proof.
  apply (dig_numbered_cell cascade_board 1 1 0).
  - apply cascade_board_ok.
  - apply elem_of_grid. simpl. lia.
  - unfold hazard. vm_compute. discriminate.
  - vm_compute. reflexivity.
Defined.

Lemma py_index_outside {A : Type} (l : list A) i :
  i < - Z.of_nat (length l) ∨ Z.of_nat (length l) ≤ i →
  py_index l i = Raise IndexError.
Proof.
  intros Hi. unfold py_index, py_norm.
  by rewrite !bool_decide_eq_false_2 by lia.
Qed.

Lemma py_index_wrap {A : Type} (l : list A) i :
  0 ≤ i < Z.of_nat (length l) →
  py_index l (i - Z.of_nat (length l)) = py_index l i.
Proof.
  intros Hi. unfold py_index, py_norm.
  rewrite (bool_decide_eq_false_2 (0 ≤ i - _ < _)) by lia.
  rewrite (bool_decide_eq_true_2 (- _ ≤ i - _ < 0)) by lia.
  rewrite (bool_decide_eq_true_2 (0 ≤ i < _)) by lia.
  by replace (Z.of_nat (length l) + (i - Z.of_nat (length l))) with i by lia.
Qed.

Lemma py_index_row dim g i row :
  shape dim g → py_index g i = Ret row → length row = Z.to_nat dim.
Proof.
  intros Hsh Hrow. unfold py_index in Hrow.
  destruct (py_norm _ _) as [k|]; [|done].
  destruct (g !! k) as [row'|] eqn:Hk; simplify_eq.
  by eapply shape_row.
Qed.

Lemma cell_at_outside dim g row col :
  shape dim g →
  row < - dim ∨ dim ≤ row ∨ col < - dim ∨ dim ≤ col →
  cell_at g row col = Raise IndexError.
Proof.
  intros Hsh Hout. pose proof Hsh as [Hlen _]. unfold cell_at.
  destruct (py_index g row) as [r|e|] eqn:Hrow; simpl.
  - pose proof (py_index_row _ _ _ _ Hsh Hrow) as Hlenr.
    apply py_index_outside.
    assert (¬ (row < - dim ∨ dim ≤ row)); [|lia].
    intros Hr. rewrite py_index_outside in Hrow by lia. done.
  - unfold py_index in Hrow. by repeat case_match; simplify_eq.
  - by apply py_index_fuel in Hrow.
Qed.

Lemma cell_at_wrap dim g r c :
  shape dim g → (r, c) ∈ grid dim →
  cell_at g (r - dim) c = cell_at g r c ∧
  cell_at g r (c - dim) = cell_at g r c ∧
  cell_at g (r - dim) (c - dim) = cell_at g r c.
Proof.
  intros Hsh [Hr Hc]%elem_of_grid. pose proof Hsh as [Hlen _].
  assert (dim = Z.of_nat (length g)) as Hdim by lia.
  destruct (py_index_lookup g r) as (row & Hrow & Hrow'); [lia|].
  pose proof (shape_row _ _ _ _ Hsh Hrow) as Hlenr.
  assert (dim = Z.of_nat (length row)) as Hdimr by lia.
  assert (py_index g (r - dim) = Ret row) as Hw.
  { rewrite Hdim at 1. rewrite py_index_wrap by lia. done. }
  assert (py_index row (c - dim) = py_index row c) as Hwc.
  { rewrite Hdimr at 1. apply py_index_wrap. lia. }
  unfold cell_at. rewrite Hw, Hrow'. simpl. by rewrite Hwc.
Qed.

(** X3: on a square board, digging at a row or a column beyond the grid
    (at or above the dimension, or below its negation) raises [IndexError],
    and by then the coordinate is in [dug], which is all that changes. *)
Theorem dig_beyond_grid (b : Board) (row col : Z) (fuel : nat) :
  shape (dimension_size b) (board b) →
  row < - dimension_size b ∨ dimension_size b ≤ row ∨
  col < - dimension_size b ∨ dimension_size b ≤ col →
  dig (S fuel) b row col = (dug_add b (row, col), Raise IndexError).
Proof.
  intros Hsh Hout. rewrite dig_S. cbv zeta.
  change (board (dug_add b (row, col))) with (board b).
  by rewrite (cell_at_outside (dimension_size b)).
Qed.

Lemma dig_beyond_grid_witness :
  dig 1 cascade_board 1 3 = (dug_add cascade_board (1, 3), Raise IndexError).
Proof.
  apply (dig_beyond_grid cascade_board 1 3 0).
  - apply cascade_board_ok.
  - simpl. lia.
Defined.

(** X4: negative coordinates down to minus the dimension are not rejected
    either: [dig(r - dim, c - dim)] reads the cell [(r, c)] of the grid.
    When that cell holds a bomb or a positive count, the dig answers as a
    dig at [(r, c)] would, but it is the negative coordinate that enters
    [dug]; the cell read stays as undug as it was. *)
Theorem dig_negative_index (b : Board) (r c : Z) (v : Cell) (fuel : nat) :
  shape (dimension_size b) (board b) → (r, c) ∈ grid (dimension_size b) →
  cell_at (board b) r c = Ret v →
  (v = Bomb ∨ ∃ n, v = Num n ∧ 0 < n) →
  dig (S fuel) b (r - dimension_size b) (c - dimension_size b)
  = (dug_add b (r - dimension_size b, c - dimension_size b),
     Ret (negb (is_bomb v))) ∧
  ((r, c) ∈ dug (dug_add b (r - dimension_size b, c - dimension_size b))
   ↔ (r, c) ∈ dug b).
Proof.
  intros Hsh Hg Hv Hcase. pose proof Hg as [Hr Hc]%elem_of_grid. split.
  - rewrite dig_S. cbv zeta.
    change (board (dug_add b ?x)) with (board b).
    destruct (cell_at_wrap _ _ r c Hsh Hg) as (_ & _ & ->). rewrite Hv.
    destruct Hcase as [->|(n & -> & Hn)]; [done|].
    by rewrite (proj2 (Z.ltb_lt _ _) Hn).
  - simpl. rewrite elem_of_union, elem_of_singleton.
    split; [|by right]. intros [[= ? ?]|?]; [lia|done].
Qed.

Lemma dig_negative_index_witness :
  dig 1 cascade_board (2 - 3) (2 - 3)
  = (dug_add cascade_board (2 - 3, 2 - 3), Ret (negb (is_bomb Bomb))) ∧
  ((2, 2) ∈ dug (dug_add cascade_board (2 - 3, 2 - 3))
   ↔ (2, 2) ∈ dug cascade_board).
Proof.
  apply (dig_negative_index cascade_board 2 2 Bomb 0).
  - apply cascade_board_ok.
  - apply elem_of_grid. simpl. lia.
  - vm_compute. reflexivity.
  - by left.
Defined.








Lemma Board_init_fresh dim nb draws b :
  Board_init dim nb draws = Ret b →
  dimension_size b = dim ∧ num_bombs b = nb ∧ dug b = ∅.
Proof.
  unfold Board_init. intros Hrun.
  destruct (make_new_board dim nb draws) as [g| |]; simpl in Hrun; [|done..].
  destruct (assign_values_to_board dim g) as [g'| |]; simpl in Hrun; [|done..].
  by simplify_eq.
Qed.

Lemma Board_init_in_play dim nb draws b :
  1 ≤ dim → 0 ≤ nb → valid_draws dim draws →
  Board_init dim nb draws = Ret b → in_play b.
Proof.
  intros Hdim Hnb Hdraws Hrun.
  destruct (Board_init_spec dim nb draws b) as (Hd & Hn & Hdug & Hok & Hc);
    [by right|done|].
  split; [done|lia|rewrite Hd, Hn; lia|rewrite Hdug; set_solver|].
  intros rc Hrc. rewrite Hdug in Hrc. set_solver.
Qed.

(** X7: when the bombs asked for are at least as many as the cells
    (a board full of bombs, or the empty board of dimension 0), [play]
    announces the win at once, before any input and with nothing dug. *)
Theorem play_no_move_win (depth : nat) (dim nb : Z) (draws : list Z)
    (inputs : list (Z * Z)) (b : Board) :
  Board_init dim nb draws = Ret b → dim ^ 2 ≤ nb →
  play depth dim nb draws inputs = Ret (b, Won) ∧ dug b = ∅.
Proof.
  intros Hinit Hnb. destruct (Board_init_fresh dim nb draws b Hinit) as (Hd & _ & Hdug).
  split; [|done]. unfold play. rewrite Hinit. simpl. f_equal.
  assert ((Z.of_nat (size (dug b)) <? dimension_size b ^ 2 - nb) = false) as Hcond.
  { apply Z.ltb_ge. rewrite Hdug, size_empty, Hd. lia. }
  destruct inputs as [|[row col] inputs]; cbn [play_loop]; by rewrite Hcond.
Qed.

Lemma play_no_move_win_witness :
  let b := {| dimension_size := 2; num_bombs := 4;
              board := [[Bomb; Bomb]; [Bomb; Bomb]]; dug := ∅ |} in
  play 998 2 4 [0; 1; 1; 2; 3] [(0, 0)] = Ret (b, Won) ∧ dug b = ∅.
Proof.
  apply (play_no_move_win 998 2 4 [0; 1; 1; 2; 3] [(0, 0)]).
  - vm_compute. reflexivity.
  - lia.
Defined.

Lemma hazard_upd dim g r c rc :
  shape dim g → (r, c) ∈ grid dim → rc ∈ grid dim →
  hazard (upd g r c Bomb) rc ↔ rc = (r, c) ∨ hazard g rc.
Proof.
  intros Hsh Hg Hrc. destruct rc as [r' c']. unfold hazard. simpl.
  rewrite (cell_at_upd dim) by done. case_decide as Heq.
  - split; [by left|done].
  - split; [by right|]. by intros [?|?].
Qed.

Lemma plant_bombs_repeat dim nb : 1 ≤ dim →
  ∀ pre loc post g planted,
    valid_draws dim (pre ++ loc :: post) → planting dim g →
    loc ∈ pre ∨ hazard g (draw_cell dim loc) →
    plant_bombs dim nb (pre ++ loc :: post) g planted
    = plant_bombs dim nb (pre ++ post) g planted.
Proof.
  intros Hdim. induction pre as [|d pre IH]; intros loc post g planted Hdraws Hg Hloc.
  - destruct Hloc as [Hloc%elem_of_nil|Hloc]; [done|].
    cbn [app plant_bombs]. destruct (planted <? nb) eqn:Hlt.
    + rewrite (proj2 (Z.ltb_ge (dim ^ 2 - 1) 0)) by nia.
      unfold hazard, draw_cell in Hloc. simpl in Hloc. by rewrite Hloc.
    + rewrite plant_bombs_done; [done|]. by apply Z.ltb_ge.
  - apply Forall_cons in Hdraws as [Hd Hdraws].
    pose proof (draw_in_grid dim d Hdim Hd) as Hin.
    pose proof Hin as [Hr Hc]%elem_of_grid.
    pose proof Hg as [Hsh Hcells].
    cbn [app plant_bombs]. destruct (planted <? nb); [|done].
    rewrite (proj2 (Z.ltb_ge (dim ^ 2 - 1) 0)) by nia.
    destruct (Hcells _ _ Hin) as [Hv|Hv]; rewrite Hv; simpl.
    + rewrite (set_cell_upd dim) by done. simpl.
      apply IH; [done| |].
      * apply planting_upd; [done..|]. unfold hazard; simpl; congruence.
      * destruct Hloc as [[->|?]%elem_of_cons|Hh]; [|by left|].
        -- right. apply (hazard_upd dim); [done..| |by left].
           apply draw_in_grid; [done|].
           by apply Forall_app in Hdraws as [_ [? _]%Forall_cons].
        -- right. apply (hazard_upd dim); [done..| |by right].
           apply draw_in_grid; [done|].
           by apply Forall_app in Hdraws as [_ [? _]%Forall_cons].
    + apply IH; [done..|].
      destruct Hloc as [[->|?]%elem_of_cons|Hh]; [by right|by left|by right].
Qed.

(** X9: the planting loop retries on a position it has drawn before: a
    value that [randint] returns again does not change the board that
    comes out, wherever in the sequence of draws it is repeated. *)
Theorem Board_init_repeated_draw (dim nb : Z) (pre post : list Z) (loc : Z) :
  1 ≤ dim → valid_draws dim (pre ++ loc :: post) → loc ∈ pre →
  make_new_board dim nb (pre ++ loc :: post) = make_new_board dim nb (pre ++ post) ∧
  Board_init dim nb (pre ++ loc :: post) = Board_init dim nb (pre ++ post).
Proof.
  intros Hdim Hdraws Hloc.
  assert (make_new_board dim nb (pre ++ loc :: post)
          = make_new_board dim nb (pre ++ post)) as Heq.
  { unfold make_new_board. apply plant_bombs_repeat; [done..| |by left].
    apply fresh_grid_planting. }
  split; [done|]. unfold Board_init. by rewrite Heq.
Qed.

Lemma Board_init_repeated_draw_witness :
  make_new_board 3 2 ([8] ++ 8 :: [0]) = make_new_board 3 2 ([8] ++ [0]) ∧
  Board_init 3 2 ([8] ++ 8 :: [0]) = Board_init 3 2 ([8] ++ [0]).
Proof.
  apply (Board_init_repeated_draw 3 2 [8] [0] 8).
  - lia.
  - repeat constructor; lia.
  - by left.
Defined.

Lemma plant_bombs_from_draws dim nb draws : 1 ≤ dim →
  ∀ g planted g',
    valid_draws dim draws → planting dim g →
    plant_bombs dim nb draws g planted = Ret g' →
    ∀ rc, rc ∈ grid dim → hazard g' rc →
          hazard g rc ∨ ∃ loc, loc ∈ draws ∧ rc = draw_cell dim loc.
Proof.
  intros Hdim. induction draws as [|d draws IH]; intros g planted g' Hdraws Hg Hrun rc Hrc Hh.
  - simpl in Hrun. destruct (planted <? nb); [by case_match|]. simplify_eq. by left.
  - apply Forall_cons in Hdraws as [Hd Hdraws].
    pose proof (draw_in_grid dim d Hdim Hd) as Hin.
    pose proof Hin as [Hr Hc]%elem_of_grid.
    pose proof Hg as [Hsh Hcells].
    cbn [plant_bombs] in Hrun. destruct (planted <? nb); [|simplify_eq; by left].
    rewrite (proj2 (Z.ltb_ge (dim ^ 2 - 1) 0)) in Hrun by nia.
    destruct (Hcells _ _ Hin) as [Hv|Hv]; rewrite Hv in Hrun; simpl in Hrun.
    + rewrite (set_cell_upd dim) in Hrun by done. simpl in Hrun.
      destruct (IH _ _ _ Hdraws (proj1 (planting_upd dim g _ _ Hg Hin
                  ltac:(unfold hazard; simpl; congruence))) Hrun rc Hrc Hh)
        as [Hu|(loc & Hloc & ->)].
      * apply (hazard_upd dim) in Hu as [->|?]; [|by left|done..].
        right. exists d. split; [left|done].
      * right. exists loc. split; [by right|done].
    + destruct (IH _ _ _ Hdraws Hg Hrun rc Hrc Hh) as [?|(loc & Hloc & ->)];
        [by left|]. right. exists loc. split; [by right|done].
Qed.

(** X10: every bomb of a constructed board lies at a position computed
    from one of the draws: row [loc // dim], column [loc % dim]. *)
Theorem Board_init_bombs_drawn (dim nb : Z) (draws : list Z) (b : Board)
    (rc : Z * Z) :
  1 ≤ dim → valid_draws dim draws → Board_init dim nb draws = Ret b →
  rc ∈ grid dim → hazard (board b) rc →
  ∃ loc, loc ∈ draws ∧ rc = draw_cell dim loc.
Proof.
  intros Hdim Hdraws Hrun Hrc Hh. unfold Board_init, make_new_board in Hrun.
  destruct (plant_bombs dim nb draws (fresh_grid dim) 0) as [g| |] eqn:Hplant;
    simpl in Hrun; [|done..].
  destruct (fresh_grid_planting dim) as [Hfresh Hzero].
  assert (shape dim g) as Hsh.
  { destruct (decide (nb ≤ 0)) as [Hle|Hlt].
    - rewrite plant_bombs_done in Hplant by done. simplify_eq. apply Hfresh.
    - by destruct (plant_bombs_spec dim nb draws (fresh_grid dim) 0 g)
        as [[? _] _]; [..|lia| |]. }
  destruct (assign_values_to_board_spec dim g Hsh) as (g' & Hg' & _ & Hhaz & _).
  rewrite Hg' in Hrun. simpl in Hrun. simplify_eq. simpl in Hh.
  apply Hhaz in Hh; [|done].
  destruct (plant_bombs_from_draws dim nb draws Hdim _ _ _ Hdraws Hfresh Hplant rc Hrc Hh)
    as [Hf|?]; [|done].
  by destruct (no_hazards dim (fresh_grid dim) rc Hzero Hrc).
Qed.

Lemma Board_init_bombs_drawn_witness :
  ∃ loc, loc ∈ [8] ∧ (2, 2) = draw_cell 3 loc.
Proof.
  apply (Board_init_bombs_drawn 3 1 [8] cascade_board (2, 2)).
  - lia.
  - repeat constructor; lia.
  - vm_compute. reflexivity.
  - apply elem_of_grid. lia.
  - vm_compute. reflexivity.
Defined.

(** Two square grids with the same cells are equal. *)
Lemma grid_ext dim (g1 g2 : Grid) :
  shape dim g1 → shape dim g2 →
  (∀ r c, (r, c) ∈ grid dim → cell_at g1 r c = cell_at g2 r c) → g1 = g2.
Proof.
  intros Hsh1 Hsh2 Hcells. pose proof Hsh1 as [Hl1 _]. pose proof Hsh2 as [Hl2 _].
  apply list_eq. intros i.
  destruct (decide (i < Z.to_nat dim)%nat) as [Hi|Hi].
  - destruct (lookup_lt_is_Some_2 g1 i) as [row1 Hrow1]; [lia|].
    destruct (lookup_lt_is_Some_2 g2 i) as [row2 Hrow2]; [lia|].
    rewrite Hrow1, Hrow2. f_equal.
    pose proof (shape_row _ _ _ _ Hsh1 Hrow1) as Hlr1.
    pose proof (shape_row _ _ _ _ Hsh2 Hrow2) as Hlr2.
    apply list_eq. intros j.
    destruct (decide (j < Z.to_nat dim)%nat) as [Hj|Hj].
    + assert ((Z.of_nat i, Z.of_nat j) ∈ grid dim) as Hg by (apply elem_of_grid; lia).
      pose proof (Hcells _ _ Hg) as Heq. pose proof Hg as [Hr Hc]%elem_of_grid.
      destruct (cell_at_cell dim g1 _ _ Hsh1 Hr Hc) as (v1 & Hv1 & Hv1').
      destruct (cell_at_cell dim g2 _ _ Hsh2 Hr Hc) as (v2 & Hv2 & Hv2').
      unfold cell in Hv1, Hv2. rewrite !Nat2Z.id in Hv1, Hv2.
      rewrite Hrow1 in Hv1. rewrite Hrow2 in Hv2. simpl in Hv1, Hv2.
      congruence.
    + rewrite !lookup_ge_None_2 by lia. done.
  - rewrite !lookup_ge_None_2 by lia. done.
Qed.

(** X11: [assign_values_to_board] on any square grid, whatever its cells
    hold, raises nothing; it leaves a bomb exactly where there was one and
    the number of adjacent bombs in every other cell; and running it once
    more changes nothing. *)
Theorem assign_values_to_board_idempotent (dim : Z) (g : Grid) :
  shape dim g →
  ∃ g', assign_values_to_board dim g = Ret g' ∧ shape dim g' ∧
        (∀ r c, (r, c) ∈ grid dim →
           cell_at g' r c =
           if decide (hazard g (r, c)) then Ret Bomb
           else Ret (Num (adjacent_hazards dim g r c))) ∧
        assign_values_to_board dim g' = Ret g'.
Proof.
  intros Hsh.
  destruct (assign_values_to_board_spec dim g Hsh) as (g' & Hg' & Hsh' & Hhaz & Hnum).
  destruct (assign_values_to_board_spec dim g' Hsh') as (g'' & Hg'' & Hsh'' & Hhaz' & Hnum').
  assert (∀ r c, (r, c) ∈ grid dim →
            cell_at g' r c =
            if decide (hazard g (r, c)) then Ret Bomb
            else Ret (Num (adjacent_hazards dim g r c))) as Hcells.
  { intros r c Hrc. case_decide as Hh.
    - by apply Hhaz in Hh.
    - rewrite Hnum; [|done|by rewrite Hhaz].
      do 2 f_equal. by apply adjacent_hazards_ext. }
  exists g'. split_and!; [done..|]. rewrite Hg''. f_equal.
  apply (grid_ext dim); [done..|]. intros r c Hrc.
  destruct (decide (hazard g' (r, c))) as [Hh|Hh].
  - pose proof Hh as Hh'. apply Hhaz' in Hh'; [|done].
    unfold hazard in Hh, Hh'. simpl in Hh, Hh'. congruence.
  - rewrite Hnum'; [|done|by rewrite Hhaz'].
    rewrite Hnum by done. do 2 f_equal. by apply adjacent_hazards_ext.
Qed.

Lemma assign_values_to_board_idempotent_witness :
  ∃ g', assign_values_to_board 2 [[Bomb; CNone]; [Num 7; CNone]] = Ret g' ∧
        shape 2 g' ∧
        (∀ r c, (r, c) ∈ grid 2 →
           cell_at g' r c =
           if decide (hazard [[Bomb; CNone]; [Num 7; CNone]] (r, c)) then Ret Bomb
           else Ret (Num (adjacent_hazards 2 [[Bomb; CNone]; [Num 7; CNone]] r c))) ∧
        assign_values_to_board 2 g' = Ret g'.
Proof.
  apply (assign_values_to_board_idempotent 2 [[Bomb; CNone]; [Num 7; CNone]]).
  split; [reflexivity|]. repeat constructor.
Defined.

(** ** What [__str__] shows *)

Section mapM_result.
Context {A B : Type}.
Implicit Types (f g : A → result B) (l : list A) (k : list B).

Lemma mapM_result_ext f g l :
  (∀ x, x ∈ l → f x = g x) → mapM f l = mapM g l.
Proof.
  induction l as [|x l IH]; intros Hfg; [done|]. simpl.
  rewrite (Hfg x) by left. rewrite IH; [done|]. intros y Hy. apply Hfg. by right.
Qed.

Lemma mapM_result_Ret f l k :
  mapM f l = Ret k ↔ Forall2 (λ x y, f x = Ret y) l k.
Proof.
  revert k. induction l as [|x l IH]; intros k; simpl.
  - split; [intros [= <-]; constructor|by intros ->%Forall2_nil_inv_l].
  - split.
    + destruct (f x) as [y| |] eqn:Hy; simpl; [|done..].
      destruct (mapM f l) as [k'| |] eqn:Hk; simpl; [|done..].
      intros [= <-]. constructor; [done|]. by apply IH.
    + intros (y & k' & Hy & Hk & ->)%Forall2_cons_inv_l.
      rewrite Hy. simpl. apply IH in Hk. by rewrite Hk.
Qed.

Lemma mapM_result_total f l :
  (∀ x, x ∈ l → ∃ y, f x = Ret y) → ∃ k, mapM f l = Ret k.
Proof.
  induction l as [|x l IH]; intros Hf; [by eexists|]. simpl.
  destruct (Hf x) as [y ->]; [left|]. simpl.
  destruct IH as [k ->]; [|by eexists]. intros z Hz. apply Hf. by right.
Qed.

Lemma mapM_result_length f l k : mapM f l = Ret k → length k = length l.
Proof. intros Hk%mapM_result_Ret. symmetry. by eapply Forall2_length. Qed.

End mapM_result.

Lemma lookup_py_range_0 dim (i : nat) :
  (i < Z.to_nat dim)%nat → py_range 0 dim !! i = Some (Z.of_nat i).
Proof.
  intros Hi. unfold py_range. rewrite lookup_seqZ. split; lia.
Qed.

(** The entries of [visible_board], one for each cell of the grid. *)
Lemma visible_board_lookup b vb r c :
  visible_board b = Ret vb → (r, c) ∈ grid (dimension_size b) →
  ∃ row s, vb !! Z.to_nat r = Some row ∧ row !! Z.to_nat c = Some s ∧
           visible_cell b r c = Ret s.
Proof.
  intros Hvb [Hr Hc]%elem_of_grid. unfold visible_board in Hvb.
  apply mapM_result_Ret in Hvb.
  destruct (Forall2_lookup_l _ _ _ (Z.to_nat r) r Hvb) as (row & Hrow & Hcells).
  { rewrite lookup_py_range_0 by lia. f_equal. lia. }
  apply mapM_result_Ret in Hcells.
  destruct (Forall2_lookup_l _ _ _ (Z.to_nat c) c Hcells) as (s & Hs & Hcell).
  { rewrite lookup_py_range_0 by lia. f_equal. lia. }
  eauto.
Qed.

Lemma visible_board_shape b vb :
  visible_board b = Ret vb →
  length vb = Z.to_nat (dimension_size b) ∧
  Forall (λ row, length row = Z.to_nat (dimension_size b)) vb.
Proof.
  intros Hvb. unfold visible_board in Hvb. split.
  - apply mapM_result_length in Hvb. rewrite Hvb, length_py_range. f_equal. lia.
  - apply mapM_result_Ret in Hvb. apply Forall_forall. intros row Hrow.
    apply list_elem_of_lookup in Hrow as [i Hi].
    destruct (Forall2_lookup_r _ _ _ _ _ Hvb Hi) as (r & _ & Hcells).
    apply mapM_result_length in Hcells. rewrite Hcells, length_py_range.
    f_equal. lia.
Qed.

Lemma visible_board_total b :
  shape (dimension_size b) (board b) → ∃ vb, visible_board b = Ret vb.
Proof.
  intros Hsh. apply mapM_result_total. intros r Hr%elem_of_py_range.
  apply mapM_result_total. intros c Hc%elem_of_py_range.
  unfold visible_cell. case_bool_decide; [|by eexists].
  destruct (cell_at_cell _ _ r c Hsh) as (v & _ & ->); [lia..|]. by eexists.
Qed.

(** X12: the text shown does not depend on what lies under the cells
    that are not dug: two boards of the same dimension whose [dug] agree on
    the grid and whose grids agree on the dug cells print alike. *)
Theorem Board_str_hides_undug (b1 b2 : Board) :
  dimension_size b1 = dimension_size b2 →
  (∀ rc, rc ∈ grid (dimension_size b1) → (rc ∈ dug b1 ↔ rc ∈ dug b2)) →
  (∀ r c, (r, c) ∈ grid (dimension_size b1) → (r, c) ∈ dug b1 →
          cell_at (board b1) r c = cell_at (board b2) r c) →
  Board_str b1 = Board_str b2.
Proof.
  intros Hdim Hdug Hcells.
  assert (visible_board b1 = visible_board b2) as Hvb.
  { unfold visible_board. rewrite <- Hdim.
    apply mapM_result_ext. intros r Hr%elem_of_py_range.
    apply mapM_result_ext. intros c Hc%elem_of_py_range.
    assert ((r, c) ∈ grid (dimension_size b1)) as Hg by (apply elem_of_grid; lia).
    unfold visible_cell. specialize (Hdug _ Hg).
    destruct (bool_decide_reflect ((r, c) ∈ dug b1)) as [Hin|Hout].
    - rewrite (bool_decide_eq_true_2 _ (proj1 Hdug Hin)). by rewrite Hcells.
    - rewrite bool_decide_eq_false_2; [done|]. tauto. }
  unfold Board_str. by rewrite Hvb, Hdim.
Qed.

Lemma Board_str_hides_undug_witness :
  Board_str (dug_add corner_board (1, 1))
  = Board_str {| dimension_size := 2; num_bombs := 1;
                 board := [[Num 1; Bomb]; [Num 1; Num 1]];
                 dug := {[ (1, 1) ]} |}.
Proof.
  apply Board_str_hides_undug.
  - reflexivity.
  - intros rc _. simpl. set_solver.
  - intros r c _ Hin. simpl in Hin.
    assert ((r, c) = (1, 1)) as [= -> ->] by set_solver. reflexivity.
Defined.

Lemma foldM_total {A X : Type} (body : A → X → result A) (xs : list X) :
  (∀ a x, x ∈ xs → ∃ a', body a x = Ret a') → ∀ a, ∃ a', foldM body xs a = Ret a'.
Proof.
  induction xs as [|x xs IH]; intros Hbody a; [by eexists|]. simpl.
  destruct (Hbody a x) as [a1 ->]; [left|]. simpl.
  apply IH. intros a2 y Hy. apply Hbody. by right.
Qed.

Lemma elem_of_enumerate {A : Type} (xs : list A) (ix : Z * A) :
  ix ∈ enumerate xs → 0 ≤ ix.1 < Z.of_nat (length xs) ∧ ix.2 ∈ xs.
Proof.
  unfold enumerate. intros (i & x & -> & Hx)%elem_of_lookup_imap. simpl.
  split; [apply lookup_lt_Some in Hx; lia|]. apply list_elem_of_lookup. eauto.
Qed.

Lemma format_cells_total (widths : list nat) (row : list string) :
  (length row ≤ length widths)%nat → ∃ cells, format_cells widths row = Ret cells.
Proof.
  intros Hlen. apply mapM_result_total. intros ic [Hi _]%elem_of_enumerate.
  destruct (py_index_lookup widths ic.1) as (w & _ & ->); [lia|]. by eexists.
Qed.

Lemma column_widths_total dim (visible : list (list string)) :
  length visible = Z.to_nat dim →
  Forall (λ row, length row = Z.to_nat dim) visible →
  ∃ widths, column_widths dim visible = Ret widths ∧
            length widths = Z.to_nat dim.
Proof.
  intros Hlen Hrows.
  destruct (mapM_result_total
    (λ idx, columns ← mapM (λ x : list string, py_index x idx) visible;
            longest ← py_max_by_len columns; Ret (String.length longest))
    (py_range 0 dim)) as [widths Hw].
  - intros idx Hidx%elem_of_py_range.
    destruct (mapM_result_total (λ x : list string, py_index x idx) visible)
      as [columns Hcols].
    { intros x Hx. rewrite Forall_forall in Hrows. specialize (Hrows x Hx).
      destruct (py_index_lookup x idx) as (y & _ & ->); [lia|]. by eexists. }
    rewrite Hcols. simpl. apply mapM_result_length in Hcols.
    destruct columns as [|y columns]; [simpl in Hcols; lia|]. by eexists.
  - exists widths. split; [done|]. apply mapM_result_length in Hw.
    rewrite Hw, length_py_range. f_equal. lia.
Qed.

(** X13: on a board with a square grid, [__str__] raises nothing but the
    [ZeroDivisionError] of dimension 0: at any other dimension it returns
    a text. *)
Theorem Board_str_total (b : Board) :
  shape (dimension_size b) (board b) →
  (dimension_size b = 0 → Board_str b = Ret ZeroDivisionError) ∧
  (dimension_size b ≠ 0 → ∃ s, Board_str b = Ret (Text s)).
Proof.
  intros Hsh. destruct (visible_board_total b Hsh) as [vb Hvb].
  destruct (visible_board_shape b vb Hvb) as [Hlen Hrows].
  destruct (column_widths_total _ vb Hlen Hrows) as (ws & Hws & Hlws).
  destruct (format_cells_total ws (pretty <$> py_range 0 (dimension_size b)))
    as [cells Hcells].
  { rewrite length_fmap, length_py_range. lia. }
  destruct (foldM_total
    (λ string_rep (ir : Z * list string),
       cells ← format_cells ws ir.2;
       Ret (string_rep +:+ pretty ir.1 +:+ " |"
            +:+ String.concat " |" cells +:+ " |" +:+ nl))
    (enumerate vb)) with (a := "") as [rep Hrep].
  { intros a ir [_ Hrow]%elem_of_enumerate. rewrite Forall_forall in Hrows.
    destruct (format_cells_total ws ir.2) as [cs ->]; [|by eexists].
    rewrite (Hrows _ Hrow). lia. }
  unfold Board_str. rewrite Hvb. simpl. rewrite Hws. simpl. rewrite Hcells. simpl.
  rewrite Hrep. simpl. split; intros Hdim.
  - by rewrite bool_decide_eq_true_2.
  - rewrite bool_decide_eq_false_2 by done. by eexists.
Qed.

Lemma Board_str_total_witness :
  let empty := {| dimension_size := 0; num_bombs := 0; board := []; dug := ∅ |} in
  Board_str empty = Ret ZeroDivisionError ∧
  ∃ s, Board_str cascade_board = Ret (Text s).
Proof.
  intros empty. split.
  - apply (Board_str_total empty); [|reflexivity].
    split; [reflexivity|]. apply Forall_nil_2.
  - apply (Board_str_total cascade_board); [|discriminate].
    apply cascade_board_ok.
Defined.

Lemma pretty_count_not_blank (n : Z) :
  0 ≤ n ≤ 8 → pretty n ≠ " " ∧ String.length (pretty n) = 1%nat.
Proof.
  intros Hn.
  assert (n = 0 ∨ n = 1 ∨ n = 2 ∨ n = 3 ∨ n = 4 ∨ n = 5 ∨ n = 6 ∨ n = 7 ∨ n = 8)
    as Hcases by lia.
  repeat (destruct Hcases as [->|Hcases]; [by vm_compute|]). subst. by vm_compute.
Qed.

(** X14: on a board as [__init__] leaves it, the grid [__str__] builds
    of what the player may see has, for every cell of the grid, one
    character: a blank exactly when the cell is not dug, the star for a
    dug bomb, and the digit of the adjacent count for any other dug cell. *)
Theorem visible_board_snapshot (b : Board) (r c : Z) :
  board_ok b → (r, c) ∈ grid (dimension_size b) →
  ∃ vb row s,
    visible_board b = Ret vb ∧
    vb !! Z.to_nat r = Some row ∧ row !! Z.to_nat c = Some s ∧
    String.length s = 1%nat ∧
    (s = " " ↔ (r, c) ∉ dug b) ∧
    ((r, c) ∈ dug b →
       s = if decide (hazard (board b) (r, c)) then "*"
           else pretty (adjacent_hazards (dimension_size b) (board b) r c)).
Proof.
  intros Hok Hg. destruct (visible_board_total b (ok_shape b Hok)) as [vb Hvb].
  destruct (visible_board_lookup b vb r c Hvb Hg) as (row & s & Hrow & Hs & Hcell).
  exists vb, row, s. split_and!; [done..| | |]; unfold visible_cell in Hcell;
    destruct (board_ok_cell b r c Hok Hg) as (v & Hv & Hcase);
    rewrite Hv in Hcell; simpl in Hcell;
    pose proof (pretty_count_not_blank
      (adjacent_hazards (dimension_size b) (board b) r c)) as Hpretty;
    (destruct Hpretty as [Hnb Hlen];
      [split; [unfold adjacent_hazards; lia|apply adjacent_hazards_le_8]|]);
    case_bool_decide as Hdug; simplify_eq.
  - by destruct Hcase as [->| ->].
  - done.
  - split; [|done]. by destruct Hcase as [->| ->].
  - done.
  - intros _. destruct Hcase as [->| ->].
    + by rewrite decide_True.
    + rewrite decide_False; [done|]. unfold hazard. simpl. by rewrite Hv.
  - done.
Qed.

Lemma visible_board_snapshot_witness :
  let b := (dig 10 cascade_board 0 0).1 in
  ∃ vb row s,
    visible_board b = Ret vb ∧
    vb !! Z.to_nat 1 = Some row ∧ row !! Z.to_nat 1 = Some s ∧
    String.length s = 1%nat ∧
    (s = " " ↔ (1, 1) ∉ dug b) ∧
    ((1, 1) ∈ dug b →
       s = if decide (hazard (board b) (1, 1)) then "*"
           else pretty (adjacent_hazards (dimension_size b) (board b) 1 1)).
Proof.
  apply (visible_board_snapshot (dig 10 cascade_board 0 0).1 1 1).
  - apply dig_board_ok, cascade_board_ok.
  - rewrite dig_dim. apply elem_of_grid. simpl. lia.
Defined.

(** ** How digs and inputs compose *)







(** ** The game loop *)

Lemma Board_str_text b :
  shape (dimension_size b) (board b) → dimension_size b ≠ 0 →
  ∃ s, Board_str b = Ret (Text s).
Proof.
  intros Hsh Hdim. destruct (visible_board_total b Hsh) as [vb Hvb].
  destruct (visible_board_shape b vb Hvb) as [Hlen Hrows].
  destruct (column_widths_total _ vb Hlen Hrows) as (ws & Hws & Hlws).
  destruct (format_cells_total ws (pretty <$> py_range 0 (dimension_size b)))
    as [cells Hcells].
  { rewrite length_fmap, length_py_range. lia. }
  destruct (foldM_total
    (λ string_rep (ir : Z * list string),
       cells ← format_cells ws ir.2;
       Ret (string_rep +:+ pretty ir.1 +:+ " |"
            +:+ String.concat " |" cells +:+ " |" +:+ nl))
    (enumerate vb)) with (a := "") as [rep Hrep].
  { intros a ir [_ Hrow]%elem_of_enumerate. rewrite Forall_forall in Hrows.
    destruct (format_cells_total ws ir.2) as [cs ->]; [|by eexists].
    rewrite (Hrows _ Hrow). lia. }
  unfold Board_str. rewrite Hvb. simpl. rewrite Hws. simpl. rewrite Hcells. simpl.
  rewrite Hrep. simpl. rewrite bool_decide_eq_false_2 by done. by eexists.
Qed.

(** Printing a board with a square grid fails at dimension 0 only. *)
Lemma print_board_ok b :
  shape (dimension_size b) (board b) → dimension_size b ≠ 0 →
  print_board b = None.
Proof.
  intros Hsh Hdim. unfold print_board.
  by destruct (Board_str_text b Hsh Hdim) as [s ->].
Qed.

Lemma after_loop_frame b safe b' v :
  after_loop b safe = (b', v) →
  dimension_size b' = dimension_size b ∧ num_bombs b' = num_bombs b ∧
  board b' = board b.
Proof.
  unfold after_loop. destruct safe; [by intros [= <- <-]|].
  by destruct (print_board _); intros [= <- <-].
Qed.

(** The loop changes [dug] only. *)
Lemma play_loop_frame depth inputs : ∀ b nb safe b' v,
  play_loop depth b nb safe inputs = (b', v) →
  dimension_size b' = dimension_size b ∧ num_bombs b' = num_bombs b ∧
  board b' = board b.
Proof.
  induction inputs as [|[row col] inputs IH]; intros b nb safe b' v Hrun;
    cbn [play_loop] in Hrun;
    (destruct (_ <? _); [|by eapply after_loop_frame]);
    (destruct (print_board b); [by simplify_eq|]); [by simplify_eq|].
  pose proof (dig_extends depth b row col) as (Hd & Hn & Hb & _).
  destruct (dig depth b row col) as [b1 [[|]|e|]];
    cbn [fst] in Hd, Hn, Hb; cbv beta iota in Hrun.
  - apply IH in Hrun as (-> & -> & ->). done.
  - apply after_loop_frame in Hrun as (-> & -> & ->). done.
  - by simplify_eq.
  - by simplify_eq.
Qed.

Lemma in_play_dig depth b row col :
  in_play b → (undug b < depth)%nat → (row, col) ∈ grid (dimension_size b) →
  (∃ b', dig depth b row col = (b', Ret true) ∧ in_play b' ∧ extends b b' ∧
         (row, col) ∈ dug b') ∨
  (∃ b', dig depth b row col = (b', Ret false) ∧ extends b b' ∧
         hazard (board b) (row, col)).
Proof.
  intros [Hok Hdim Hcount Hgrid Hsafe] Hdepth Hg.
  destruct (dig_in_grid depth b row col) as (v & Hv & Hres); [done..| |].
  { pose proof (undug_dug_add_le b (row, col)). lia. }
  pose proof (dig_extends depth b row col) as Hext.
  pose proof Hext as (Hd & Hn & Hb & Hsub).
  assert ((row, col) ∈ dug (dig depth b row col).1) as Hstart.
  { destruct depth; [lia|]. apply dig_dug_start. }
  pose proof (dig_board_ok depth b row col Hok) as Hok'.
  pose proof (dig_new_in_grid depth b row col) as Hnew.
  pose proof (dig_safe depth b row col Hok Hg) as Hsafe'.
  destruct (dig depth b row col) as [b' r]. simpl in *. subst r.
  destruct (is_bomb v) eqn:Hbomb; simpl.
  - right. exists b'. split_and!; [done..|].
    unfold hazard. simpl. rewrite Hv. by destruct v.
  - left. exists b'. split; [done|].
    assert (¬ hazard (board b) (row, col)) as Hnh.
    { unfold hazard. simpl. rewrite Hv. intros [= ->]. done. }
    split_and!; [|done..]. split; [done|lia|by rewrite Hd, Hb, Hn| |].
    + intros rc Hrc. rewrite Hd.
      destruct (Hnew rc Hrc) as [?|[->|?]]; [by apply Hgrid|done..].
    + intros rc Hrc. rewrite Hb.
      destruct (Hsafe' Hnh rc Hrc) as [?|[_ ?]]; [by apply Hsafe|done].
Qed.

Lemma after_loop_loss b :
  shape (dimension_size b) (board b) → dimension_size b ≠ 0 →
  after_loop b false = (reveal_all b, GameOver).
Proof.
  intros Hsh Hdim. unfold after_loop. by rewrite print_board_ok.
Qed.

(** As long as the player digs inside the grid of a board of dimension 1
    or more and [dig] is left more depth than there are undug cells, the
    loop ends in no exception: it announces a win exactly on the boards
    where every cell without a bomb, and no other, is dug, and a loss after
    a bomb was typed. *)
Lemma play_loop_in_grid depth inputs : ∀ b,
  in_play b → 1 ≤ dimension_size b → (undug b < depth)%nat →
  (∀ rc, rc ∈ inputs → rc ∈ grid (dimension_size b)) →
  ∀ b' v, play_loop depth b (num_bombs b) true inputs = (b', v) →
  match v with
  | Won => dug b' = safe_cells (dimension_size b') (board b')
  | GameOver => dug b' = grid (dimension_size b') ∧
                ∃ rc, rc ∈ inputs ∧ hazard (board b') rc
  | AwaitInput =>
      dug b' ≠ safe_cells (dimension_size b') (board b') ∧ in_play b' ∧
      dug b ⊆ dug b' ∧ ∀ rc, rc ∈ inputs → rc ∈ dug b'
  | Crashed _ | CrashedZeroDivision | CrashedRecursion => False
  end.
Proof.
  induction inputs as [|[row col] inputs IH]; intros b Hplay Hdim Hdepth Hin b' v Hrun;
    cbn [play_loop] in Hrun;
    pose proof (win_test_in_grid b (play_dim b Hplay) (play_count b Hplay)
                  (play_grid b Hplay) (play_safe b Hplay)) as Hwin;
    unfold win_test in Hwin;
    (destruct (Z.of_nat (size (dug b)) <? dimension_size b ^ 2 - num_bombs b) eqn:Hlt;
      [|simpl in Hrun; simplify_eq; by apply Hwin]);
    rewrite print_board_ok in Hrun by (apply Hplay || lia).
  - simplify_eq. split_and!; [|done..|by intros rc ?%elem_of_nil].
    intros Heq. by apply Hwin in Heq.
  - destruct (in_play_dig depth b row col Hplay Hdepth)
      as [(b1 & Hdig & Hplay1 & Hext & Hstart)|(b1 & Hdig & Hext & Hh)];
      [apply Hin; left| |]; rewrite Hdig in Hrun;
      pose proof Hext as (Hd & Hn & Hb & Hsub).
    + rewrite <- Hn in Hrun.
      pose proof (undug_extends _ _ Hext).
      assert (∀ rc, rc ∈ inputs → rc ∈ grid (dimension_size b1)) as Hin1.
      { intros rc Hrc. rewrite Hd. apply Hin. by right. }
      pose proof (IH b1 Hplay1 ltac:(lia) ltac:(lia) Hin1 b' v Hrun) as IH'.
      destruct v; try done.
      * destruct IH' as [Hall (rc & Hrc & Hhz)]. split; [done|].
        exists rc. split; [by right|done].
      * destruct IH' as (Hne & Hplay' & Hsub' & Hall).
        split_and!; [done..|set_solver|].
        intros rc [->|Hrc]%elem_of_cons; [by apply Hsub'|by apply Hall].
    + rewrite after_loop_loss in Hrun.
      * simplify_eq. simpl. split; [done|]. exists (row, col).
        split; [left|]. by rewrite Hb.
      * rewrite Hd, Hb. apply Hplay.
      * lia.
Qed.

(** X6: when the board is built with a dimension of 1 or more and no
    negative number of bombs, the player only types cells of the grid, and
    the recursion depth left to [dig] is above the number of cells, [play]
    stops on no exception.  It announces the win exactly with every cell
    without a bomb, and no other, dug; it announces the loss after a bomb
    was typed, and then shows the whole grid; and while it waits for input
    [dug] is not yet the set of the cells without a bomb. *)
Theorem play_in_grid_verdict (depth : nat) (dim nb : Z) (draws : list Z)
    (inputs : list (Z * Z)) (b : Board) (v : Verdict) :
  1 ≤ dim → 0 ≤ nb → valid_draws dim draws → dim ^ 2 < Z.of_nat depth →
  (∀ rc, rc ∈ inputs → rc ∈ grid dim) →
  play depth dim nb draws inputs = Ret (b, v) →
  match v with
  | Won => dug b = safe_cells dim (board b)
  | GameOver => dug b = grid dim ∧ ∃ rc, rc ∈ inputs ∧ hazard (board b) rc
  | AwaitInput => dug b ≠ safe_cells dim (board b)
  | Crashed _ | CrashedZeroDivision | CrashedRecursion => False
  end.
Proof.
  intros Hdim Hnb Hdraws Hdepth Hin Hrun. unfold play in Hrun.
  destruct (Board_init dim nb draws) as [b0| |] eqn:Hinit; simpl in Hrun; [|done..].
  pose proof (Board_init_in_play dim nb draws b0 Hdim Hnb Hdraws Hinit) as Hplay.
  destruct (Board_init_fresh dim nb draws b0 Hinit) as (Hd & Hn & _).
  injection Hrun as Hrun. rewrite <- Hn in Hrun.
  assert (undug b0 < depth)%nat as Hdepth'.
  { pose proof (undug_le_grid b0). rewrite Hd in *. nia. }
  assert (∀ rc, rc ∈ inputs → rc ∈ grid (dimension_size b0)) as Hin'.
  { intros rc Hrc. rewrite Hd. by apply Hin. }
  pose proof (play_loop_in_grid depth inputs b0 Hplay ltac:(lia) Hdepth' Hin' b v Hrun)
    as Hv.
  destruct (play_loop_frame _ _ _ _ _ _ _ Hrun) as (Hdb & _).
  rewrite Hdb, Hd in Hv. destruct v; try done. by destruct Hv.
Qed.

Lemma play_in_grid_verdict_witness :
  let won := (play_loop 10 cascade_board 1 true [(0, 0)]).1 in
  let lost := (play_loop 10 cascade_board 1 true [(1, 1); (2, 2)]).1 in
  dug won = safe_cells 3 (board won) ∧
  dug lost = grid 3 ∧ ∃ rc, rc ∈ [(1, 1); (2, 2)] ∧ hazard (board lost) rc.
Proof.
  split.
  - apply (play_in_grid_verdict 10 3 1 [8] [(0, 0)] _ Won).
    + lia.
    + lia.
    + repeat constructor; lia.
    + reflexivity.
    + intros rc ->%list_elem_of_singleton. apply elem_of_grid. lia.
    + vm_compute. reflexivity.
  - apply (play_in_grid_verdict 10 3 1 [8] [(1, 1); (2, 2)] _ GameOver).
    + lia.
    + lia.
    + repeat constructor; lia.
    + reflexivity.
    + intros rc [->|[->|[]%elem_of_nil]%elem_of_cons]%elem_of_cons;
        apply elem_of_grid; lia.
    + vm_compute. reflexivity.
Defined.

(** X8: under the same conditions, once the player has typed every cell
    of the grid (in any order, repeats allowed) the game is over: [play]
    has announced the win or the loss and is not waiting for input. *)
Theorem play_all_cells_typed (depth : nat) (dim nb : Z) (draws : list Z)
    (inputs : list (Z * Z)) (b : Board) (v : Verdict) :
  1 ≤ dim → 0 ≤ nb → valid_draws dim draws → dim ^ 2 < Z.of_nat depth →
  (∀ rc, rc ∈ inputs ↔ rc ∈ grid dim) →
  play depth dim nb draws inputs = Ret (b, v) →
  v = Won ∨ v = GameOver.
Proof.
  intros Hdim Hnb Hdraws Hdepth Hin Hrun. unfold play in Hrun.
  destruct (Board_init dim nb draws) as [b0| |] eqn:Hinit; simpl in Hrun; [|done..].
  pose proof (Board_init_in_play dim nb draws b0 Hdim Hnb Hdraws Hinit) as Hplay.
  destruct (Board_init_fresh dim nb draws b0 Hinit) as (Hd & Hn & _).
  injection Hrun as Hrun. rewrite <- Hn in Hrun.
  assert (undug b0 < depth)%nat as Hdepth'.
  { pose proof (undug_le_grid b0). rewrite Hd in *. nia. }
  assert (∀ rc, rc ∈ inputs → rc ∈ grid (dimension_size b0)) as Hin'.
  { intros rc Hrc. rewrite Hd. by apply Hin. }
  pose proof (play_loop_in_grid depth inputs b0 Hplay ltac:(lia) Hdepth' Hin' b v Hrun)
    as Hv.
  destruct (play_loop_frame _ _ _ _ _ _ _ Hrun) as (Hdb & _).
  destruct v; [by left|by right| |done..].
  exfalso. destruct Hv as (Hne & [_ _ _ Hgrid Hsafe] & _ & Hall).
  apply Hne, set_eq. intros rc. rewrite elem_of_safe_cells. split.
  - intros Hrc. split; [by apply Hgrid|by apply Hsafe].
  - intros [Hrc _]. apply Hall, Hin. by rewrite <- Hd, <- Hdb.
Qed.

Lemma play_all_cells_typed_witness :
  (play_loop 5 corner_board 1 true [(1, 1); (1, 0); (0, 1); (0, 0)]).2 = Won ∨
  (play_loop 5 corner_board 1 true [(1, 1); (1, 0); (0, 1); (0, 0)]).2 = GameOver.
Proof.
  apply (play_all_cells_typed 5 2 1 [0] [(1, 1); (1, 0); (0, 1); (0, 0)]
           (play_loop 5 corner_board 1 true [(1, 1); (1, 0); (0, 1); (0, 0)]).1).
  - lia.
  - lia.
  - repeat constructor; lia.
  - reflexivity.
  - intros [r c]. rewrite elem_of_grid, !elem_of_cons, elem_of_nil.
    split; [intros [[= -> ->]|[[= -> ->]|[[= -> ->]|[[= -> ->]|[]]]]]; lia|].
    intros [Hr Hc].
    assert ((r = 0 ∨ r = 1) ∧ (c = 0 ∨ c = 1)) as [[-> | ->] [-> | ->]] by lia; tauto.
  - vm_compute. reflexivity.
Defined.

(** X18: at dimension 0 with a negative number of bombs the loop of [play]
    is entered with nothing to dig, and its first [print(board)] divides by
    the dimension: [play] stops on [ZeroDivisionError] before it reads any
    input, whatever the recursion depth. *)
Theorem play_dimension_zero (depth : nat) (nb : Z) (draws : list Z)
    (inputs : list (Z * Z)) :
  nb < 0 →
  play depth 0 nb draws inputs =
    Ret ({| dimension_size := 0; num_bombs := nb; board := []; dug := ∅ |},
         CrashedZeroDivision).
Proof.
  intros Hnb.
  set (b := {| dimension_size := 0; num_bombs := nb; board := []; dug := ∅ |}).
  assert (Board_init 0 nb draws = Ret b) as Hinit.
  { unfold Board_init, make_new_board.
    destruct draws; simpl; by rewrite (proj2 (Z.ltb_ge 0 nb)) by lia. }
  assert ((Z.of_nat (size (dug b)) <? dimension_size b ^ 2 - nb) = true) as Hcond.
  { apply Z.ltb_lt. cbn [b dug dimension_size]. rewrite size_empty. lia. }
  assert (print_board b = Some CrashedZeroDivision) as Hprint by reflexivity.
  unfold play. rewrite Hinit.
  change (Ret (play_loop depth b nb true inputs) = Ret (b, CrashedZeroDivision)).
  f_equal. destruct inputs as [|[row col] inputs]; cbn [play_loop];
    by rewrite Hcond, Hprint.
Qed.

Lemma play_dimension_zero_witness :
  play 1000 0 (-1) [] [(0, 0)] =
    Ret ({| dimension_size := 0; num_bombs := -1; board := []; dug := ∅ |},
         CrashedZeroDivision).
Proof. apply (play_dimension_zero 1000 (-1) [] [(0, 0)]). lia. Defined.
